(** * Stimulator: the orchestration layer of the FES driver

    A shallow embedding of [src/Mahi/Fes/Core/Stimulator.cpp].

    The member functions of [Stimulator] are translated statement by statement
    into a small state monad.  Everything the class does not own -- the Win32
    serial API, the two [Scheduler] objects, [Channel::setup_channel], the
    message readers and the logger -- is reached through one primitive,
    [call], which asks a [Device] for the answer and records the call together
    with its answer in a trace.  Out-of-range [operator[]] and out-of-range
    floating-point conversions are undefined behaviour in C++; the monad has
    an explicit [Undefined] outcome for them.

    Of [src/Mahi/Fes/Utility/VirtualStim.cpp] the file embeds [fmt_msg], the
    pure function behind the monitor lines of the receiver window. *)

From Stdlib Require Import ZArith List Bool String Ascii Lia.
From Stdlib Require Import Floats.SpecFloat.
From Stdlib Require Strings.Byte.
Import ListNotations.

Set Implicit Arguments.

(** ** Data *)

(** [Channel]: only its accessors are used by the Stimulator. *)
Record Channel := mkChannel {
  get_channel_name    : string;
  get_channel_num     : nat;
  get_board_num       : nat;
  get_max_amplitude   : Z;
  get_max_pulse_width : Z
}.

(** [ReadMessage]: an inbound frame as the Stimulator sees it. *)
Record ReadMessage := mkReadMessage {
  is_valid    : bool;
  get_data    : list Z;
  get_message : list Z
}.

(** [Event]: the Stimulator only asks an event for its channel. *)
Record Event := mkEvent {
  get_channel    : Channel;
  ev_pulse_width : Z;
  ev_amplitude   : Z
}.

(** Win32 [DCB], restricted to the fields [configure_port] touches. *)
Record DCB := mkDCB {
  DCBlength   : Z;
  BaudRate    : Z;
  ByteSize    : Z;
  StopBits    : Z;
  Parity      : Z;
  fOutX       : Z;
  fInX        : Z;
  fRtsControl : Z;
  fDtrControl : Z
}.

Record COMMTIMEOUTS := mkCOMMTIMEOUTS {
  ReadIntervalTimeout         : Z;
  ReadTotalTimeoutMultiplier  : Z;
  ReadTotalTimeoutConstant    : Z;
  WriteTotalTimeoutMultiplier : Z;
  WriteTotalTimeoutConstant   : Z
}.

Definition sizeof_DCB : Z := 28.
Definition CBR_9600 : Z := 9600.
Definition ONESTOPBIT : Z := 0.
Definition NOPARITY : Z := 0.
Definition FALSE : Z := 0.
Definition RTS_CONTROL_DISABLE : Z := 0.
Definition DTR_CONTROL_DISABLE : Z := 0.

Inductive PurgeFlag := PURGE_TXABORT | PURGE_RXABORT | PURGE_RXCLEAR | PURGE_TXCLEAR.

Inductive Severity := Info | Error.

(** ** Calls that leave the class

    A serial handle is named by its slot (0 or 1) in [m_hComms]; a scheduler
    by its slot in [m_schedulers]. *)
Inductive Call :=
| CreateFileW (slot : nat) (comID : string)
| GetCommState (slot : nat)
| SetCommState (slot : nat) (dcb : DCB)
| SetCommTimeouts (slot : nat) (timeouts : COMMTIMEOUTS)
| PurgeComm (slot : nat) (flag : PurgeFlag)
| CloseHandle (slot : nat)
| LOG (sev : Severity) (text : string)
| print_message (msg : list Z)
| read_message (slot : nat) (blocking : bool)
| get_all_messages (num_ports : nat)
| setup_channel (ch : Channel) (slot : nat) (delay_time : Z)
| Scheduler_disable (sched : nat)
| Scheduler_halt_scheduler (sched : nat)
| Scheduler_send_sync_msg (sched : nat)
| Scheduler_set_amp (sched : nat) (ch : Channel) (amp : Z)
| Scheduler_write_pw (sched : nat) (ch : Channel) (pw : Z)
| Scheduler_update (sched : nat)
| Scheduler_create_scheduler (sched slot : nat) (sync_msg duration delay_time : Z)
| Scheduler_set_id (sched : nat) (id : Z)
| Scheduler_add_event (sched : nat) (ch : Channel) (delay_time event_type : Z).

(** What each call hands back.  [CreateFileW] answers whether the handle
    differs from [INVALID_HANDLE_VALUE]; [GetCommState] answers its [BOOL]
    and the structure it filled in.  Results the Stimulator discards are
    [unit]. *)
Definition Resp (c : Call) : Type :=
  match c with
  | CreateFileW _ _ => bool
  | GetCommState _ => (bool * DCB)%type
  | SetCommState _ _ => bool
  | SetCommTimeouts _ _ => bool
  | PurgeComm _ _ => unit
  | CloseHandle _ => unit
  | LOG _ _ => unit
  | print_message _ => unit
  | read_message _ _ => ReadMessage
  | get_all_messages _ => list ReadMessage
  | setup_channel _ _ _ => bool
  | Scheduler_disable _ => unit
  | Scheduler_halt_scheduler _ => bool
  | Scheduler_send_sync_msg _ => bool
  | Scheduler_set_amp _ _ _ => unit
  | Scheduler_write_pw _ _ _ => unit
  | Scheduler_update _ => bool
  | Scheduler_create_scheduler _ _ _ _ _ => bool
  | Scheduler_set_id _ _ => unit
  | Scheduler_add_event _ _ _ _ => bool
  end.

(** One line of the trace: a call and the answer it got. *)
Record Entry := mkEntry { e_call : Call; e_resp : Resp e_call }.

(** The collaborators of the class.  [World] holds whatever they own: the
    serial lines, the boards, the insides of the two schedulers.  The four
    scheduler getters used for the snapshot are read-only. *)
Class Device := {
  World : Type;
  handle : forall c : Call, World -> Resp c * World;
  Scheduler_get_num_events : nat -> World -> nat;
  Scheduler_get_events : nat -> World -> list Event;
  Scheduler_get_amp : nat -> Channel -> World -> Z;
  Scheduler_get_pw : nat -> Channel -> World -> Z
}.

(** ** The object *)
Record Stimulator := mkStimulator {
  m_name            : string;
  m_com_ports       : list string;
  m_enabled         : bool;
  m_is_virtual      : bool;
  m_channels        : list Channel;
  m_num_ports       : nat;
  m_delay_time      : Z;
  m_dcbSerialParams : DCB;
  num_events        : nat;
  amplitudes        : list Z;
  pulsewidths       : list Z;
  max_amplitudes    : list Z;
  max_pulsewidths   : list Z;
  channel_names     : list string
}.

Definition set_m_enabled (b : bool) (x : Stimulator) : Stimulator :=
  mkStimulator (m_name x) (m_com_ports x) b (m_is_virtual x) (m_channels x)
    (m_num_ports x) (m_delay_time x) (m_dcbSerialParams x) (num_events x)
    (amplitudes x) (pulsewidths x) (max_amplitudes x) (max_pulsewidths x)
    (channel_names x).

Definition set_m_dcbSerialParams (d : DCB) (x : Stimulator) : Stimulator :=
  mkStimulator (m_name x) (m_com_ports x) (m_enabled x) (m_is_virtual x)
    (m_channels x) (m_num_ports x) (m_delay_time x) d (num_events x)
    (amplitudes x) (pulsewidths x) (max_amplitudes x) (max_pulsewidths x)
    (channel_names x).

Definition set_snapshot (a p ma mp : list Z) (x : Stimulator) : Stimulator :=
  mkStimulator (m_name x) (m_com_ports x) (m_enabled x) (m_is_virtual x)
    (m_channels x) (m_num_ports x) (m_delay_time x) (m_dcbSerialParams x)
    (num_events x) a p ma mp (channel_names x).

(** [v[i] = x] on a [std::vector]; [None] when [i] is out of range. *)
Fixpoint vec_store {A} (v : list A) (i : nat) (x : A) : option (list A) :=
  match v, i with
  | [], _ => None
  | _ :: tl, O => Some (x :: tl)
  | hd :: tl, S j =>
      match vec_store tl j x with
      | Some tl' => Some (hd :: tl')
      | None => None
      end
  end.

(** ** [double] and its conversion to [unsigned int]

    IEEE 754 binary64 as specified by the standard library. *)
Definition prec : Z := 53.
Definition emax : Z := 1024.
Definition double := spec_float.

Definition double_of_Z (z : Z) : double := binary_normalize prec emax z 0 false.
Definition double_div : double -> double -> double := SFdiv prec emax.
Definition double_mul : double -> double -> double := SFmul prec emax.
Definition double_gt (x y : double) : bool := SFltb y x.

(** The magnitude of a finite double, rounded toward zero. *)
Definition trunc_magnitude (m : positive) (e : Z) : Z :=
  if (0 <=? e)%Z then (Zpos m * 2 ^ e)%Z else (Zpos m / 2 ^ (- e))%Z.

Definition UINT_MAX : Z := 4294967295.

(** [(unsigned int)x]: the fractional part is discarded; the conversion is
    undefined ([None]) when the truncated value does not fit. *)
Definition to_unsigned_int (x : double) : option Z :=
  match x with
  | S754_zero _ => Some 0%Z
  | S754_finite sign m e =>
      let v := trunc_magnitude m e in
      if sign then (if (v =? 0)%Z then Some 0%Z else None)
      else if (v <=? UINT_MAX)%Z then Some v else None
  | S754_infinity _ => None
  | S754_nan => None
  end.

Definition set_m_num_ports (n : nat) (x : Stimulator) : Stimulator :=
  mkStimulator (m_name x) (m_com_ports x) (m_enabled x) (m_is_virtual x)
    (m_channels x) n (m_delay_time x) (m_dcbSerialParams x) (num_events x)
    (amplitudes x) (pulsewidths x) (max_amplitudes x) (max_pulsewidths x)
    (channel_names x).

Definition set_amplitudes (l : list Z) (x : Stimulator) : Stimulator :=
  set_snapshot l (pulsewidths x) (max_amplitudes x) (max_pulsewidths x) x.

Definition set_pulsewidths (l : list Z) (x : Stimulator) : Stimulator :=
  set_snapshot (amplitudes x) l (max_amplitudes x) (max_pulsewidths x) x.

Definition set_max_amplitudes (l : list Z) (x : Stimulator) : Stimulator :=
  set_snapshot (amplitudes x) (pulsewidths x) l (max_pulsewidths x) x.

Definition set_max_pulsewidths (l : list Z) (x : Stimulator) : Stimulator :=
  set_snapshot (amplitudes x) (pulsewidths x) (max_amplitudes x) l x.


Definition set_DCBlength (v : Z) (d : DCB) : DCB :=
  mkDCB v (BaudRate d) (ByteSize d) (StopBits d) (Parity d) (fOutX d) (fInX d)
    (fRtsControl d) (fDtrControl d).

(** The assignments of [configure_port] between [GetCommState] and
    [SetCommState]. *)
Definition serial_settings (d : DCB) : DCB :=
  mkDCB (DCBlength d) CBR_9600 8 ONESTOPBIT NOPARITY FALSE FALSE
    RTS_CONTROL_DISABLE DTR_CONTROL_DISABLE.

Definition port_timeouts : COMMTIMEOUTS :=
  {| ReadIntervalTimeout := 10;
     ReadTotalTimeoutConstant := 10;
     ReadTotalTimeoutMultiplier := 10;
     WriteTotalTimeoutConstant := 50;
     WriteTotalTimeoutMultiplier := 10 |}.

Definition backslash : ascii := ascii_of_nat 92.

(** The device-namespace prefix that [open_port] puts before the port name. *)
Definition com_prefix : string :=
  String backslash (String backslash (String "." (String backslash EmptyString))).

(** Modelled from the spec: [Stimulator.hpp], which initialises [m_num_ports],
    is not among the sources; the spec has the Stimulator own one or two
    ports, and the constructor only ever raises the count to two. *)
Definition default_num_ports : nat := 1.

(** ** The monad *)
Section Embedding.

Context {D : Device}.

Record State := mkState {
  stim  : Stimulator;
  world : World;
  trace : list Entry
}.

Inductive Res (A : Type) : Type :=
| Ret (a : A) (s : State)
| Undefined.

Arguments Undefined {A}.

Definition M (A : Type) : Type := State -> Res A.

Definition ret {A} (a : A) : M A := fun s => Ret a s.

Definition bind {A B} (m : M A) (k : A -> M B) : M B :=
  fun s => match m s with
           | Ret a s' => k a s'
           | Undefined => Undefined
           end.

Definition undefined {A} : M A := fun _ => Undefined.

Definition gets {A} (f : Stimulator -> A) : M A :=
  fun s => Ret (f (stim s)) s.

Definition modify (f : Stimulator -> Stimulator) : M unit :=
  fun s => Ret tt (mkState (f (stim s)) (world s) (trace s)).

Definition observe {A} (f : World -> A) : M A :=
  fun s => Ret (f (world s)) s.

(** Ask the device, remember the question and the answer. *)
Definition call (c : Call) : M (Resp c) :=
  fun s => let (r, w) := handle c (world s) in
           Ret r (mkState (stim s) w (trace s ++ [mkEntry c r])).

Notation "x <- m ;; k" := (bind m (fun x => k))
  (at level 61, m at next level, right associativity).
Notation "m ;; k" := (bind m (fun _ => k))
  (at level 61, right associativity).

(** [v[i]] on a [std::vector]. *)
Definition vec_at {A} (v : list A) (i : nat) : M A :=
  match nth_error v i with
  | Some x => ret x
  | None => undefined
  end.

(** [m_hComms[i]] and [m_schedulers[i]]: both vectors hold two elements. *)
Definition slot_at (i : nat) : M nat :=
  if i <? 2 then ret i else undefined.

(** [field[i] = v] on one of the snapshot vectors. *)
Definition store (field : Stimulator -> list Z)
    (set : list Z -> Stimulator -> Stimulator) (i : nat) (v : Z) : M unit :=
  l <- gets field ;;
  match vec_store l i v with
  | Some l' => modify (set l')
  | None => undefined
  end.

(** [for (i = lo; i < lo + n; i++)] around a body that may [return] from the
    enclosing function: [Some r] leaves with [r], [None] goes on. *)
Fixpoint for_ret {R} (n lo : nat) (body : nat -> M (option R)) : M (option R) :=
  match n with
  | O => ret None
  | S n' =>
      r <- body lo ;;
      match r with
      | Some x => ret (Some x)
      | None => for_ret n' (S lo) body
      end
  end.

(** The same loop around a body that updates a local variable. *)
Fixpoint for_acc {A} (n lo : nat) (body : nat -> A -> M A) (a : A) : M A :=
  match n with
  | O => ret a
  | S n' => a' <- body lo a ;; for_acc n' (S lo) body a'
  end.

(** ** Member functions, in the order of the source file *)

Definition is_enabled : M bool := gets m_enabled.

Definition close_stimulator : M unit :=
  n <- gets m_num_ports ;;
  for_acc n 0 (fun i _ => h <- slot_at i ;; call (CloseHandle h)) tt ;;
  modify (set_m_enabled false).

Definition disable : M unit :=
  e <- is_enabled ;;
  (if e then
     n <- gets m_num_ports ;;
     for_acc n 0 (fun i _ => si <- slot_at i ;; call (Scheduler_disable si)) tt ;;
     close_stimulator ;;
     call (LOG Info "Stimulator Disabled")
   else
     call (LOG Info "Stimulator has not been enabled yet.")) ;;
  modify (set_m_enabled false).

Definition open_port (hComm : nat) (com_port : string) : M bool :=
  let comID := (com_prefix ++ com_port)%string in
  opened <- call (CreateFileW hComm comID) ;;
  if negb opened then
    call (LOG Error ("Failed to open port " ++ com_port)) ;;
    ret false
  else
    call (LOG Info ("Successfully opened port " ++ com_port)) ;;
    ret true.

Definition configure_port (hComm : nat) : M bool :=
  modify (fun x => set_m_dcbSerialParams
                     (set_DCBlength sizeof_DCB (m_dcbSerialParams x)) x) ;;
  got <- call (GetCommState hComm) ;;
  if negb (fst got) then
    call (LOG Error "Error getting serial port state") ;;
    ret false
  else
    modify (set_m_dcbSerialParams (serial_settings (snd got))) ;;
    dcb <- gets m_dcbSerialParams ;;
    ok <- call (SetCommState hComm dcb) ;;
    if negb ok then
      call (LOG Error "Error setting serial port state") ;;
      ret false
    else
      ok <- call (SetCommTimeouts hComm port_timeouts) ;;
      if negb ok then
        call (LOG Error "Error setting serial port timeouts") ;;
        ret false
      else
        call (PurgeComm hComm PURGE_TXABORT) ;;
        call (PurgeComm hComm PURGE_RXABORT) ;;
        call (PurgeComm hComm PURGE_RXCLEAR) ;;
        call (PurgeComm hComm PURGE_TXCLEAR) ;;
        ret true.

Definition initialize_board : M bool :=
  chs <- gets m_channels ;;
  r <- for_ret (List.length chs) 0 (fun i =>
         ch <- vec_at chs i ;;
         h <- slot_at (get_board_num ch) ;;
         delay <- gets m_delay_time ;;
         ok <- call (setup_channel ch h delay) ;;
         if negb ok then ret (Some false) else ret None) ;;
  match r with
  | Some b => ret b
  | None =>
      call (LOG Info "Setup Completed successfully.") ;;
      ret true
  end.

Definition enable : M bool :=
  n <- gets m_num_ports ;;
  r <- for_ret n 0 (fun i =>
         h <- slot_at i ;;
         ports <- gets m_com_ports ;;
         port <- vec_at ports i ;;
         ok <- open_port h port ;;
         if negb ok then
           disable ;; e <- gets m_enabled ;; ret (Some e)
         else
           h <- slot_at i ;;
           ok <- configure_port h ;;
           if negb ok then
             disable ;; e <- gets m_enabled ;; ret (Some e)
           else ret None) ;;
  match r with
  | Some b => ret b
  | None =>
      ok <- initialize_board ;;
      if negb ok then
        disable ;; gets m_enabled
      else
        modify (set_m_enabled true) ;; gets m_enabled
  end.

Definition halt_scheduler : M bool :=
  n <- gets m_num_ports ;;
  for_acc n 0 (fun i success =>
    si <- slot_at i ;;
    ok <- call (Scheduler_halt_scheduler si) ;;
    if negb ok then ret false else ret success) true.

Definition begin : M bool :=
  e <- is_enabled ;;
  if e then
    modify (set_m_enabled true) ;;
    n <- gets m_num_ports ;;
    for_acc n 0 (fun i success =>
      si <- slot_at i ;;
      ok <- call (Scheduler_send_sync_msg si) ;;
      if negb ok then ret false else ret success) true
  else
    call (LOG Error "Stimulator has not yet been opened. Not starting the stimulator") ;;
    ret false.

Definition set_amp (channel_ : Channel) (amp_ : Z) : M unit :=
  e <- is_enabled ;;
  if e then
    si <- slot_at (get_board_num channel_) ;;
    call (Scheduler_set_amp si channel_ amp_)
  else
    call (LOG Error "Stimulator has not yet been enabled. Not writing amplitude").

Definition set_amps (channels_ : list Channel) (amplitudes_ : list Z) : M unit :=
  for_acc (List.length channels_) 0 (fun i _ =>
    ch <- vec_at channels_ i ;;
    amp <- vec_at amplitudes_ i ;;
    set_amp ch amp) tt.

Definition write_pw (channel_ : Channel) (pw_ : Z) : M unit :=
  e <- is_enabled ;;
  if e then
    si <- slot_at (get_board_num channel_) ;;
    call (Scheduler_write_pw si channel_ pw_)
  else
    call (LOG Error "Stimulator has not yet been enabled. Not writing pulsewidth").

Definition write_pws (channels_ : list Channel) (pulsewidths_ : list Z) : M unit :=
  for_acc (List.length channels_) 0 (fun i _ =>
    ch <- vec_at channels_ i ;;
    pw <- vec_at pulsewidths_ i ;;
    write_pw ch pw) tt.

(** One round of the snapshot loop of [update]: the body that runs under the
    lock for event [i] of scheduler [j]. *)
Definition refresh_snapshot_entry (j i : nat) : M unit :=
  sj <- slot_at j ;;
  events <- observe (Scheduler_get_events sj) ;;
  ev <- vec_at events i ;;
  let channel_ := get_channel ev in
  amp <- observe (Scheduler_get_amp sj channel_) ;;
  store amplitudes set_amplitudes (get_channel_num channel_) amp ;;
  pw <- observe (Scheduler_get_pw sj channel_) ;;
  store pulsewidths set_pulsewidths (get_channel_num channel_) pw ;;
  store max_amplitudes set_max_amplitudes (get_channel_num channel_)
    (get_max_amplitude channel_) ;;
  store max_pulsewidths set_max_pulsewidths (get_channel_num channel_)
    (get_max_pulse_width channel_).

(** The block of [update] guarded by [m_mtx].  The loop bound
    [get_num_events()] is read once per scheduler: the body only writes the
    snapshot vectors, so re-reading it would give the same number. *)
Definition refresh_snapshot : M unit :=
  n <- gets m_num_ports ;;
  for_acc n 0 (fun j _ =>
    sj <- slot_at j ;;
    count <- observe (Scheduler_get_num_events sj) ;;
    for_acc count 0 (fun i _ => refresh_snapshot_entry j i) tt) tt.

Definition update : M bool :=
  e <- is_enabled ;;
  if e then
    refresh_snapshot ;;
    n <- gets m_num_ports ;;
    success <- for_acc n 0 (fun i success =>
                 si <- slot_at i ;;
                 ok <- call (Scheduler_update si) ;;
                 if negb ok then ret false else ret success) true ;;
    n <- gets m_num_ports ;;
    incoming_messages <- call (get_all_messages n) ;;
    success <- for_acc (List.length incoming_messages) 0 (fun i success =>
                 msg <- vec_at incoming_messages i ;;
                 if negb (is_valid msg) then
                   call (LOG Error "Return message (below) either invalid or an error. Disabling stimulator.") ;;
                   call (print_message (get_message msg)) ;;
                   ret false
                 else ret success) success ;;
    (if negb success then disable else ret tt) ;;
    ret success
  else
    call (LOG Error "Stimulator has not yet been enabled. Not updating") ;;
    ret false.

(** The first statement of [create_scheduler]: the tick length in
    milliseconds. *)
Definition tick_duration (frequency_ : double) : option Z :=
  if double_gt frequency_ (double_of_Z 0) then
    to_unsigned_int
      (double_mul (double_div (double_of_Z 1) frequency_) (double_of_Z 1000))
  else Some 50%Z.

(** The body of the [for] loop declares its own [success]; the [success]
    declared before the loop is the one returned and is never assigned. *)
Definition create_scheduler (sync_msg : Z) (frequency_ : double) : M bool :=
  duration <- match tick_duration frequency_ with
              | Some d => ret d
              | None => undefined
              end ;;
  e <- is_enabled ;;
  if e then
    let success := false in
    n <- gets m_num_ports ;;
    r <- for_ret n 0 (fun i =>
           si <- slot_at i ;;
           hi <- slot_at i ;;
           delay <- gets m_delay_time ;;
           inner_success <- call (Scheduler_create_scheduler si hi sync_msg duration delay) ;;
           virt <- gets m_is_virtual ;;
           if negb virt then
             hi <- slot_at i ;;
             scheduler_created_msg <- call (read_message hi true) ;;
             if is_valid scheduler_created_msg then
               si <- slot_at i ;;
               id <- vec_at (get_data scheduler_created_msg) 0 ;;
               call (Scheduler_set_id si id) ;;
               ret None
             else
               call (LOG Error "Scheduler created return message (below) was either invalid or an error. Disabling stimulator.") ;;
               call (print_message (get_message scheduler_created_msg)) ;;
               disable ;;
               ret (Some false)
           else ret None) ;;
    match r with
    | Some b => ret b
    | None => ret success
    end
  else
    call (LOG Error "Stimulator has not yet been enabled. Not creating scheduler") ;;
    ret false.

Definition add_event (channel_ : Channel) (event_type : Z) : M bool :=
  e <- is_enabled ;;
  if e then
    si <- slot_at (get_board_num channel_) ;;
    delay <- gets m_delay_time ;;
    success <- call (Scheduler_add_event si channel_ delay event_type) ;;
    ret success
  else
    call (LOG Error "Stimulator has not yet been enabled. Not adding event to scheduler") ;;
    ret false.

Definition add_events (channels_ : list Channel) (event_type : Z) : M bool :=
  e <- is_enabled ;;
  if e then
    r <- for_ret (List.length channels_) 0 (fun i =>
           ch <- vec_at channels_ i ;;
           ok <- add_event ch event_type ;;
           if negb ok then ret (Some false) else ret None) ;;
    match r with
    | Some b => ret b
    | None => ret true
    end
  else
    call (LOG Error "Stimulator has not yet been enabled. Not adding event to scheduler") ;;
    ret false.

(** The object as the member initialiser list leaves it.  [delay_time_] and
    [dcb_] stand for the members the header initialises or leaves
    indeterminate. *)
Definition initial_Stimulator (name_ : string) (channels_ : list Channel)
    (com_port_1_ com_port_2_ : string) (is_virtual_ : bool)
    (delay_time_ : Z) (dcb_ : DCB) : Stimulator :=
  let n := List.length channels_ in
  {| m_name := name_;
     m_com_ports := [com_port_1_; com_port_2_];
     m_enabled := false;
     m_is_virtual := is_virtual_;
     m_channels := channels_;
     m_num_ports := default_num_ports;
     m_delay_time := delay_time_;
     m_dcbSerialParams := dcb_;
     num_events := n;
     amplitudes := repeat 0%Z n;
     pulsewidths := repeat 0%Z n;
     max_amplitudes := repeat 0%Z n;
     max_pulsewidths := repeat 0%Z n;
     channel_names := [] |}.



(** The snapshot block stays inside its vectors: every event index below
    [get_num_events()] names an event, and the channel number of that event
    is an index into each of the four snapshot vectors. *)
Definition snapshot_in_range (x : Stimulator) (w : World) : bool :=
  forallb (fun j =>
    forallb (fun i =>
      match nth_error (Scheduler_get_events j w) i with
      | Some ev =>
          let k := get_channel_num (get_channel ev) in
          (k <? List.length (amplitudes x)) &&
          (k <? List.length (pulsewidths x)) &&
          (k <? List.length (max_amplitudes x)) &&
          (k <? List.length (max_pulsewidths x))
      | None => false
      end) (seq 0 (Scheduler_get_num_events j w)))
    (seq 0 (m_num_ports x)).

(** A frame that a blocking read reports as valid carries a payload. *)
Definition acks_carry_id : Prop :=
  forall (slot : nat) (w : World),
    is_valid (fst (handle (read_message slot true) w)) = true ->
    get_data (fst (handle (read_message slot true) w)) <> [].

(** [runs m s Q]: started in [s], [m] finishes without undefined behaviour,
    and its result, the object it leaves and the calls it made satisfy [Q]. *)
Definition runs {A} (m : M A) (s : State)
    (Q : A -> Stimulator -> list Entry -> Prop) : Prop :=
  exists a s' t, m s = Ret a s' /\ trace s' = trace s ++ t /\ Q a (stim s') t.

(** [returns P m]: whenever [m] finishes, its result satisfies [P]. *)
Definition returns {A} (P : A -> Prop) (m : M A) : Prop :=
  forall s, match m s with Ret a _ => P a | Undefined => True end.

End Embedding.

Arguments Undefined {D A}.

Notation "x <- m ;; k" := (bind m (fun x => k))
  (at level 61, m at next level, right associativity).
Notation "m ;; k" := (bind m (fun _ => k))
  (at level 61, right associativity).

(** ** The remaining members of the class *)

Definition set_m_channels (l : list Channel) (x : Stimulator) : Stimulator :=
  mkStimulator (m_name x) (m_com_ports x) (m_enabled x) (m_is_virtual x) l
    (m_num_ports x) (m_delay_time x) (m_dcbSerialParams x) (num_events x)
    (amplitudes x) (pulsewidths x) (max_amplitudes x) (max_pulsewidths x)
    (channel_names x).

(** Modelled from the spec: [Channel::set_max_amplitude] and
    [Channel::set_max_pulse_width] are not among the sources; the spec has
    each of them adjust its one ceiling of the channel and nothing else. *)
Definition set_max_amplitude (v : Z) (c : Channel) : Channel :=
  mkChannel (get_channel_name c) (get_channel_num c) (get_board_num c) v
    (get_max_pulse_width c).

Definition set_max_pulse_width (v : Z) (c : Channel) : Channel :=
  mkChannel (get_channel_name c) (get_channel_num c) (get_board_num c)
    (get_max_amplitude c) v.

Definition channel_not_found_text : string :=
  "Did not find the correct channel to update".

Section MoreMembers.

Context {D : Device}.

(** [*channel = c] through the iterator at position [i] of [m_channels]. *)
Definition store_channel (i : nat) (c : Channel) : M unit :=
  l <- gets m_channels ;;
  match vec_store l i c with
  | Some l' => modify (set_m_channels l')
  | None => undefined
  end.

(** The iterator loop shared by [update_max_amp] and [update_max_pw]: the
    first channel whose name equals that of [channel_] is changed by
    [set_ceiling] and the function returns; when the loop runs out the error
    line is written. *)
Definition update_ceiling (set_ceiling : Channel -> Channel) (channel_ : Channel)
    : M unit :=
  chs <- gets m_channels ;;
  r <- for_ret (List.length chs) 0 (fun i =>
         chs <- gets m_channels ;;
         channel <- vec_at chs i ;;
         if String.eqb (get_channel_name channel) (get_channel_name channel_) then
           store_channel i (set_ceiling channel) ;;
           ret (Some tt)
         else ret None) ;;
  match r with
  | Some _ => ret tt
  | None => call (LOG Error channel_not_found_text)
  end.

Definition update_max_amp (channel_ : Channel) (max_amp_ : Z) : M unit :=
  update_ceiling (set_max_amplitude max_amp_) channel_.

Definition update_max_pw (channel_ : Channel) (max_pw_ : Z) : M unit :=
  update_ceiling (set_max_pulse_width max_pw_) channel_.

Definition get_channels : M (list Channel) := gets m_channels.

Definition get_name : M string := gets m_name.

(** [Stimulator::~Stimulator]. *)
Definition Stimulator_destructor : M unit := disable.

(** [m] returns [a], leaves the object as it is and does one thing to the
    outside: it writes the error line [text]. *)
Definition just_logs {A} (m : M A) (s : State) (a : A) (text : string) : Prop :=
  exists s', m s = Ret a s' /\ stim s' = stim s /\
             trace s' = trace s ++ [mkEntry (LOG Error text) tt].

End MoreMembers.

(** The list [l] with the first channel named [name] changed by [f];
    [None] when no channel has that name. *)
Fixpoint update_first (name : string) (f : Channel -> Channel) (l : list Channel)
    : option (list Channel) :=
  match l with
  | [] => None
  | c :: rest =>
      if String.eqb (get_channel_name c) name then Some (f c :: rest)
      else match update_first name f rest with
           | Some rest' => Some (c :: rest')
           | None => None
           end
  end.

Definition other_name (name : string) (c : Channel) : bool :=
  negb (String.eqb (get_channel_name c) name).

(** The channel list after [update_ceiling]. *)
Definition ceiling_set (name : string) (f : Channel -> Channel)
    (l : list Channel) : list Channel :=
  match update_first name f l with
  | Some l' => l'
  | None => l
  end.




(** The bounds check that the snapshot block does not make, for event [i] of
    scheduler [j]: the event exists and its channel number is an index into
    each of the four snapshot vectors of [x]. *)
Definition snapshot_entry_in_range {D : Device} (x : Stimulator) (w : World)
    (j i : nat) : bool :=
  match nth_error (Scheduler_get_events j w) i with
  | Some ev =>
      let k := get_channel_num (get_channel ev) in
      (k <? List.length (amplitudes x)) &&
      (k <? List.length (pulsewidths x)) &&
      (k <? List.length (max_amplitudes x)) &&
      (k <? List.length (max_pulsewidths x))
  | None => false
  end.


Definition not_updating_text : string :=
  "Stimulator has not yet been enabled. Not updating".

(** The first channel of [l] named [name]. *)
Definition channel_named (name : string) (l : list Channel) : option Channel :=
  find (fun c => String.eqb (get_channel_name c) name) l.

(** ** Reading a trace *)

(** Did the call go well?  A [BOOL] or [bool] answers for itself, a frame is
    well when it is valid, a batch of frames when all of them are; calls
    whose result is discarded cannot go wrong. *)
Definition resp_ok (e : Entry) : bool :=
  match e with
  | mkEntry c r =>
      match c return Resp c -> bool with
      | CreateFileW _ _ => fun b => b
      | GetCommState _ => fun p => fst p
      | SetCommState _ _ => fun b => b
      | SetCommTimeouts _ _ => fun b => b
      | PurgeComm _ _ => fun _ => true
      | CloseHandle _ => fun _ => true
      | LOG _ _ => fun _ => true
      | print_message _ => fun _ => true
      | read_message _ _ => fun m => is_valid m
      | get_all_messages _ => fun ms => forallb is_valid ms
      | setup_channel _ _ _ => fun b => b
      | Scheduler_disable _ => fun _ => true
      | Scheduler_halt_scheduler _ => fun b => b
      | Scheduler_send_sync_msg _ => fun b => b
      | Scheduler_set_amp _ _ _ => fun _ => true
      | Scheduler_write_pw _ _ _ => fun _ => true
      | Scheduler_update _ => fun b => b
      | Scheduler_create_scheduler _ _ _ _ _ => fun b => b
      | Scheduler_set_id _ _ => fun _ => true
      | Scheduler_add_event _ _ _ _ => fun b => b
      end r
  end.


(** Entries for slots [lo], [lo+1], ... carrying the given answers. *)
Fixpoint numbered {A} (mk : nat -> A -> Entry) (lo : nat) (answers : list A)
    : list Entry :=
  match answers with
  | [] => []
  | r :: rest => mk lo r :: numbered mk (S lo) rest
  end.

(** One [Scheduler::update] per port, in port order. *)
Definition update_entries : list bool -> list Entry :=
  numbered (fun i r => mkEntry (Scheduler_update i) r) 0.

(** One [Scheduler::send_sync_msg] per port, in port order. *)
Definition sync_entries : list bool -> list Entry :=
  numbered (fun i r => mkEntry (Scheduler_send_sync_msg i) r) 0.

(** The conjunction of a list of answers. *)
Definition all_true (answers : list bool) : bool := forallb (fun b => b) answers.

Definition not_opened_text : string :=
  "Stimulator has not yet been opened. Not starting the stimulator".

Definition invalid_frame_text : string :=
  "Return message (below) either invalid or an error. Disabling stimulator.".

(** What [update] writes to the log for the frames it drained. *)
Definition complaints (frames : list ReadMessage) : list Entry :=
  flat_map (fun m => if is_valid m then []
                     else [mkEntry (LOG Error invalid_frame_text) tt;
                           mkEntry (print_message (get_message m)) tt]) frames.

Definition not_enabled_notice : Entry :=
  mkEntry (LOG Info "Stimulator has not been enabled yet.") tt.

(** Everything [disable] does to the outside, for the object [x]. *)
Definition disable_trace (x : Stimulator) : list Entry :=
  if m_enabled x then
    map (fun i => mkEntry (Scheduler_disable i) tt) (seq 0 (m_num_ports x))
    ++ map (fun i => mkEntry (CloseHandle i) tt) (seq 0 (m_num_ports x))
    ++ [mkEntry (LOG Info "Stimulator Disabled") tt]
  else [not_enabled_notice].

(** The call [add_event] makes for channel [ch]. *)
Definition add_event_call (x : Stimulator) (event_type : Z) (ch : Channel) : Call :=
  Scheduler_add_event (get_board_num ch) ch (m_delay_time x) event_type.

Definition added (x : Stimulator) (event_type : Z) (ok : bool) (ch : Channel)
    : Entry :=
  mkEntry (add_event_call x event_type ch) ok.

(** The one outside call of [set_amp] and of [write_pw]. *)
Definition set_amp_entry (x : Stimulator) (ch : Channel) (amp : Z) : Entry :=
  if m_enabled x then mkEntry (Scheduler_set_amp (get_board_num ch) ch amp) tt
  else mkEntry (LOG Error "Stimulator has not yet been enabled. Not writing amplitude") tt.

Definition write_pw_entry (x : Stimulator) (ch : Channel) (pw : Z) : Entry :=
  if m_enabled x then mkEntry (Scheduler_write_pw (get_board_num ch) ch pw) tt
  else mkEntry (LOG Error "Stimulator has not yet been enabled. Not writing pulsewidth") tt.

Definition handshake_failed_text : string :=
  "Scheduler created return message (below) was either invalid or an error. Disabling stimulator.".

(** What a non-virtual [create_scheduler] does to the outside, port by port
    from port [lo] on.  A round is the answer of [Scheduler::create_scheduler]
    and the frame read back.  After a valid frame the scheduler is given the
    first byte of its payload as id and the next port follows; after an
    invalid one the frame is logged, the Stimulator disabled and the
    remaining ports are left alone. *)
Fixpoint handshake_entries (x : Stimulator) (sync_msg duration : Z) (lo : nat)
    (rounds : list (bool * ReadMessage)) : list Entry :=
  match rounds with
  | [] => []
  | (answer, frame) :: rest =>
      mkEntry (Scheduler_create_scheduler lo lo sync_msg duration (m_delay_time x)) answer
      :: mkEntry (read_message lo true) frame
      :: (if is_valid frame then
            mkEntry (Scheduler_set_id lo (hd 0%Z (get_data frame))) tt
            :: handshake_entries x sync_msg duration (S lo) rest
          else
            mkEntry (LOG Error handshake_failed_text) tt
            :: mkEntry (print_message (get_message frame)) tt
            :: disable_trace x)
  end.

Definition all_valid (rounds : list (bool * ReadMessage)) : bool :=
  forallb (fun round => is_valid (snd round)) rounds.

Definition double_le (x y : double) : bool := SFleb x y.

(** The tick length as the specification words it: 1000 divided by the
    frequency, as numbers, with the fraction dropped.  Defined for positive
    finite frequencies. *)
Definition thousand_over (frequency_ : double) : option Z :=
  match frequency_ with
  | S754_finite false m e =>
      Some (if (0 <=? e)%Z then (1000 / (Zpos m * 2 ^ e))%Z
            else ((1000 * 2 ^ (- e)) / Zpos m)%Z)
  | _ => None
  end.

(** The same quotient taken as one double division, 1000.0 / frequency, and
    then converted. *)
Definition thousand_over_rounded (frequency_ : double) : option Z :=
  to_unsigned_int (double_div (double_of_Z 1000) frequency_).

(** The double nearest to 100/3, written 33.333333333333336. *)
Definition double_33_3 : double := S754_finite false 4691249611844267 (-47).

(** What the snapshot block may change: the contents of the four vectors,
    not their sizes, and nothing else that the rest of [update] reads. *)
Definition snapshot_only (x y : Stimulator) : Prop :=
  m_enabled x = m_enabled y /\
  m_num_ports x = m_num_ports y /\
  List.length (amplitudes x) = List.length (amplitudes y) /\
  List.length (pulsewidths x) = List.length (pulsewidths y) /\
  List.length (max_amplitudes x) = List.length (max_amplitudes y) /\
  List.length (max_pulsewidths x) = List.length (max_pulsewidths y).



(** The milestones of [enable]: a port is opened, its configuration begins,
    a channel is set up. *)
Inductive Step :=
| Open (port : nat)
| Configure (port : nat)
| Setup (ch : Channel).

Definition step_of (e : Entry) : list Step :=
  match e_call e with
  | CreateFileW i _ => [Open i]
  | GetCommState i => [Configure i]
  | setup_channel ch _ _ => [Setup ch]
  | _ => []
  end.

Definition steps (t : list Entry) : list Step := flat_map step_of t.

Definition port_steps (n : nat) : list Step :=
  flat_map (fun i => [Open i; Configure i]) (seq 0 n).

(** All that a successful [enable] goes through, in order. *)
Definition plan (x : Stimulator) : list Step :=
  port_steps (m_num_ports x) ++ map Setup (m_channels x).

Definition prefix_of {A} (l1 l : list A) : Prop := exists rest, l = l1 ++ rest.

(** [t] went well up to one call that failed; [tail] is all that came after
    that call. *)
Definition fails_at (t tail : list Entry) : Prop :=
  exists t1 e, t = t1 ++ e :: tail /\ forallb resp_ok t1 = true /\ resp_ok e = false.

(** After a failure [enable] writes at most one error line of its own
    before it calls [disable]. *)
Definition at_most_one_error_line (tail : list Entry) : Prop :=
  tail = [] \/ exists text, tail = [mkEntry (LOG Error text) tt].

(** Does a whole-number frequency of [k] Hz get the tick length [1000 / k]? *)
Definition whole_frequency_ok (k : nat) : bool :=
  match tick_duration (double_of_Z (Z.of_nat k)) with
  | Some d => (d =? 1000 / Z.of_nat k)%Z
  | None => false
  end.

(** The members that no member function other than the constructor writes. *)
Definition same_setup (x y : Stimulator) : Prop :=
  m_num_ports x = m_num_ports y /\
  m_com_ports x = m_com_ports y /\
  m_channels x = m_channels y /\
  m_delay_time x = m_delay_time y /\
  m_is_virtual x = m_is_virtual y.

(** Both two-element vectors are indexed within range. *)
Definition ports_ok (x : Stimulator) : Prop :=
  m_num_ports x <= 2 /\ m_num_ports x <= List.length (m_com_ports x).

Definition boards_ok (chs : list Channel) : Prop :=
  Forall (fun ch => get_board_num ch < 2) chs.

(** One [Scheduler::create_scheduler] per port, in port order. *)
Definition create_entries (x : Stimulator) (sync_msg duration : Z)
    : list bool -> list Entry :=
  numbered (fun i r =>
    mkEntry (Scheduler_create_scheduler i i sync_msg duration (m_delay_time x)) r) 0.

(** One [Scheduler::halt_scheduler] per port, in port order. *)
Definition halt_entries : list bool -> list Entry :=
  numbered (fun i r => mkEntry (Scheduler_halt_scheduler i) r) 0.

(** What one round of the snapshot block keeps: the world, the trace and the
    sizes of the vectors. *)
Definition snapshot_round_keeps {D : Device} (s0 s1 : State) : Prop :=
  world s1 = world s0 /\ trace s1 = trace s0 /\
  snapshot_only (stim s1) (stim s0).

(** ** A bench device

    A scripted stand-in for the hardware: [verdicts] answers the calls that
    report success or failure, [acks] the blocking reads of the handshake
    ([Some id] is a valid acknowledgement carrying [id], [None] an invalid
    frame), [inbound] is what the next drain finds, [events] are the events
    of scheduler 0. *)
Record Bench := mkBench {
  verdicts : list bool;
  acks     : list (option Z);
  inbound  : list ReadMessage;
  events   : list Event
}.

Definition next_verdict (w : Bench) : bool * Bench :=
  match verdicts w with
  | [] => (true, w)
  | b :: rest => (b, mkBench rest (acks w) (inbound w) (events w))
  end.

Definition zero_DCB : DCB := mkDCB 0 0 0 0 0 0 0 0 0.

Definition ack_frame (a : option Z) : ReadMessage :=
  match a with
  | Some id => mkReadMessage true [id] [255; 0; 16; 0; id]%Z
  | None => mkReadMessage false [] []
  end.

Definition next_ack (w : Bench) : ReadMessage * Bench :=
  match acks w with
  | [] => (ack_frame None, w)
  | a :: rest => (ack_frame a, mkBench (verdicts w) rest (inbound w) (events w))
  end.

Definition bench_handle (c : Call) (w : Bench) : Resp c * Bench :=
  match c return Resp c * Bench with
  | CreateFileW _ _ => next_verdict w
  | GetCommState _ => let (b, w') := next_verdict w in ((b, zero_DCB), w')
  | SetCommState _ _ => next_verdict w
  | SetCommTimeouts _ _ => next_verdict w
  | PurgeComm _ _ => (tt, w)
  | CloseHandle _ => (tt, w)
  | LOG _ _ => (tt, w)
  | print_message _ => (tt, w)
  | read_message _ _ => next_ack w
  | get_all_messages _ =>
      (inbound w, mkBench (verdicts w) (acks w) [] (events w))
  | setup_channel _ _ _ => next_verdict w
  | Scheduler_disable _ => (tt, w)
  | Scheduler_halt_scheduler _ => next_verdict w
  | Scheduler_send_sync_msg _ => next_verdict w
  | Scheduler_set_amp _ _ _ => (tt, w)
  | Scheduler_write_pw _ _ _ => (tt, w)
  | Scheduler_update _ => next_verdict w
  | Scheduler_create_scheduler _ _ _ _ _ => next_verdict w
  | Scheduler_set_id _ _ => (tt, w)
  | Scheduler_add_event _ _ _ _ => next_verdict w
  end.

Definition bench_events (sched : nat) (w : Bench) : list Event :=
  match sched with O => events w | _ => [] end.

Definition bench_amp (sched : nat) (ch : Channel) (w : Bench) : Z :=
  match find (fun ev => get_channel_num (get_channel ev) =? get_channel_num ch)
             (bench_events sched w) with
  | Some ev => ev_amplitude ev
  | None => 0%Z
  end.

Definition bench_pw (sched : nat) (ch : Channel) (w : Bench) : Z :=
  match find (fun ev => get_channel_num (get_channel ev) =? get_channel_num ch)
             (bench_events sched w) with
  | Some ev => ev_pulse_width ev
  | None => 0%Z
  end.

Definition bench : Device :=
  {| World := Bench;
     handle := bench_handle;
     Scheduler_get_num_events := fun j w => List.length (bench_events j w);
     Scheduler_get_events := bench_events;
     Scheduler_get_amp := bench_amp;
     Scheduler_get_pw := bench_pw |}.

(** The four channels of [examples/test_stim.cpp], all on board 0. *)
Definition bicep : Channel := mkChannel "bicep" 0 0 100 250.
Definition tricep : Channel := mkChannel "tricep" 1 0 100 250.
Definition forearm : Channel := mkChannel "forearm" 2 0 100 250.
Definition wrist : Channel := mkChannel "wrist" 3 0 100 250.
Definition test_channels : list Channel := [bicep; tricep; forearm; wrist].

(** A one-port Stimulator over the four test channels. *)
Definition test_stim (enabled virt : bool) : Stimulator :=
  set_m_enabled enabled
    (initial_Stimulator "UECU Board" test_channels "COM5" "NONE" virt 1 zero_DCB).

Definition bench_state (x : Stimulator) (w : Bench) : @State bench :=
  @mkState bench x w [].

(** A Stimulator whose only channel is the device's second output: the
    snapshot vectors have one entry, the channel number is 1. *)
Definition lone_tricep_stim : Stimulator :=
  set_m_enabled true
    (initial_Stimulator "UECU Board" [tricep] "COM5" "NONE" false 1 zero_DCB).

(** * The receiver window: [VirtualStim::fmt_msg]

    [fmt_msg] renders a message, a vector of unsigned chars, twice: every
    byte as a four-character decimal number ([%04i]) and as a
    four-character hexadecimal number ([0x%02X]).  It returns the decimal
    line first, the hexadecimal line second.  The loop counter is an [int]
    ([auto i = 0]) compared with the vector's [size_t] size: counting past
    [INT_MAX] is signed overflow, undefined behaviour, modelled by [None]. *)

Definition INT_MAX : Z := 2147483647.

(** One digit as [sprintf] prints it: [%X] uses the upper-case letters. *)
Definition dec_digit (d : N) : ascii := ascii_of_N (48 + d).

Definition hex_digit (d : N) : ascii :=
  if (d <? 10)%N then ascii_of_N (48 + d) else ascii_of_N (55 + d).

(** [sprintf(char_buff, "0x%02X", (unsigned int)message[i])]: the argument
    is below 256, so [%02X] prints exactly two digits. *)
Definition sprintf_02X (b : Byte.byte) : string :=
  let n := Byte.to_N b in
  String "0" (String "x"
    (String (hex_digit (n / 16)) (String (hex_digit (n mod 16)) EmptyString))).

(** [sprintf(int_buff, "%04i", (unsigned int)message[i])]: at least four
    digits, padded with zeros; a number below 10000 has exactly four. *)
Definition sprintf_04i (b : Byte.byte) : string :=
  let n := Byte.to_N b in
  String (dec_digit (n / 1000 mod 10)) (String (dec_digit (n / 100 mod 10))
    (String (dec_digit (n / 10 mod 10)) (String (dec_digit (n mod 10))
       EmptyString))).

(** What follows the number at index [i]: the [if (i == 3) ... else if
    (i != (message.size() - 1)) ... else ...] of the loop body. *)
Definition separator (size i : Z) : string :=
  if (i =? 3)%Z then " | "%string
  else if negb (i =? size - 1)%Z then ", "%string
  else "|"%string.

(** The [for] loop, at index [i] with the bytes from [i] on still to do.
    After the body [i++] runs before the test, so at [INT_MAX] it
    overflows. *)
Fixpoint fmt_msg_loop (size i : Z) (rest : list Byte.byte)
    (temp_msg_unc temp_msg_int : string) : option (string * string) :=
  match rest with
  | [] => Some (temp_msg_unc, temp_msg_int)
  | b :: rest' =>
      let temp_msg_unc := (temp_msg_unc ++ sprintf_02X b)%string in
      let temp_msg_int := (temp_msg_int ++ sprintf_04i b)%string in
      let temp_msg_unc := (temp_msg_unc ++ separator size i)%string in
      let temp_msg_int := (temp_msg_int ++ separator size i)%string in
      if (i =? INT_MAX)%Z then None
      else fmt_msg_loop size (i + 1) rest' temp_msg_unc temp_msg_int
  end.

Definition fmt_msg (message : list Byte.byte) : option (list string) :=
  match fmt_msg_loop (Z.of_nat (List.length message)) 0 message "|" "|" with
  | Some (temp_msg_unc, temp_msg_int) => Some [temp_msg_int; temp_msg_unc]
  | None => None
  end.

(** ** Describing a rendered line *)

(** The numbers of a line with ", " between them. *)
Fixpoint joined (numbers : list string) : string :=
  match numbers with
  | [] => ""
  | [x] => x
  | x :: rest => x ++ ", " ++ joined rest
  end%string.

(** A line as the window shows it: the first four bytes (the header of a
    frame), then the others.  A message of exactly four bytes ends with the
    header's bar and its blank; an empty message is a single bar. *)
Definition monitor_line (number : Byte.byte -> string) (message : list Byte.byte)
  : string :=
  match List.length message with
  | 0 => "|"
  | 1 | 2 | 3 => "|" ++ joined (map number message) ++ "|"
  | 4 => "|" ++ joined (map number message) ++ " | "
  | _ => "|" ++ joined (map number (firstn 4 message)) ++ " | "
             ++ joined (map number (skipn 4 message)) ++ "|"
  end%string.

(** The length of a line of [n] numbers. *)
Definition monitor_line_length (n : nat) : nat :=
  match n with
  | 0 => 1
  | 1 | 2 | 3 => 6 * n
  | 4 => 26
  | _ => 6 * n + 1
  end.

(** What the loop appends from index [i] on. *)
Fixpoint rendered (number : Byte.byte -> string) (size i : Z)
    (rest : list Byte.byte) : string :=
  match rest with
  | [] => ""
  | b :: rest' =>
      number b ++ separator size i ++ rendered number size (i + 1) rest'
  end%string.

(** Reading a line back.  In a hexadecimal line a "0" outside a number
    starts one; in a decimal line every digit outside a number does. *)
Definition hex_value (c : ascii) : N :=
  let n := N_of_ascii c in
  if (n <? 58)%N then n - 48 else n - 55.

Definition byte_of_N (n : N) : Byte.byte :=
  match Byte.of_N n with
  | Some b => b
  | None => Byte.x00
  end.

Fixpoint read_hex (s : string) : list Byte.byte :=
  match s with
  | EmptyString => []
  | String c rest =>
      if Ascii.eqb c "0" then
        match rest with
        | String _ (String h (String l rest')) =>
            byte_of_N (16 * hex_value h + hex_value l) :: read_hex rest'
        | _ => []
        end
      else read_hex rest
  end.

Definition is_digit (c : ascii) : bool :=
  let n := N_of_ascii c in (48 <=? n)%N && (n <=? 57)%N.

Fixpoint read_dec (s : string) : list Byte.byte :=
  match s with
  | EmptyString => []
  | String c rest =>
      if is_digit c then
        match rest with
        | String d2 (String d1 (String d0 rest')) =>
            byte_of_N (100 * (N_of_ascii d2 - 48) + 10 * (N_of_ascii d1 - 48)
                       + (N_of_ascii d0 - 48))
            :: read_dec rest'
        | _ => []
        end
      else read_dec rest
  end.

(** * Reasoning about runs *)
Section Reasoning.

Context {D : Device}.

Implicit Types (s : State) (x st : Stimulator) (t : list Entry).

Lemma runs_ret A (a : A) s Q : Q a (stim s) [] -> runs (ret a) s Q.
Proof.
  intros H. exists a, s, []. rewrite app_nil_r. repeat split; assumption.
Qed.

Lemma runs_bind A B (m : M A) (k : A -> M B) s Q1 Q :
  runs m s Q1 ->
  (forall a s1 t1, Q1 a (stim s1) t1 ->
     runs (k a) s1 (fun b st t2 => Q b st (t1 ++ t2))) ->
  runs (bind m k) s Q.
Proof.
  intros (a & s1 & t1 & E & T & H1) K.
  destruct (K a s1 t1 H1) as (b & s2 & t2 & E2 & T2 & H2).
  exists b, s2, (t1 ++ t2). unfold bind. rewrite E.
  split; [exact E2|]. split; [|exact H2].
  rewrite T2, T, app_assoc. reflexivity.
Qed.

Lemma runs_weaken A (m : M A) s (Q Q' : A -> Stimulator -> list Entry -> Prop) :
  runs m s Q -> (forall a st t, Q a st t -> Q' a st t) -> runs m s Q'.
Proof.
  intros (a & s1 & t1 & E & T & H1) W. exists a, s1, t1. auto.
Qed.

Lemma runs_gets A B (f : Stimulator -> A) (k : A -> M B) s Q :
  runs (k (f (stim s))) s Q -> runs (bind (gets f) k) s Q.
Proof. intros H. exact H. Qed.

Lemma runs_modify B (f : Stimulator -> Stimulator) (k : unit -> M B) s Q :
  (forall s1, stim s1 = f (stim s) -> runs (k tt) s1 Q) ->
  runs (bind (modify f) k) s Q.
Proof.
  intros H.
  destruct (H (mkState (f (stim s)) (world s) (trace s)) eq_refl)
    as (b & s2 & t & E & T & HQ).
  exists b, s2, t. auto.
Qed.

Lemma runs_modify_end (f : Stimulator -> Stimulator) s Q :
  Q tt (f (stim s)) [] -> runs (modify f) s Q.
Proof.
  intros H. exists tt, (mkState (f (stim s)) (world s) (trace s)), [].
  cbn. rewrite app_nil_r. auto.
Qed.

Lemma runs_observe A B (f : World -> A) (k : A -> M B) s Q :
  runs (k (f (world s))) s Q -> runs (bind (observe f) k) s Q.
Proof. intros H. exact H. Qed.

Lemma runs_call B (c : Call) (k : Resp c -> M B) s Q :
  (forall r s1, stim s1 = stim s ->
     runs (k r) s1 (fun b st t => Q b st (mkEntry c r :: t))) ->
  runs (bind (call c) k) s Q.
Proof.
  intros H. unfold runs, bind, call.
  destruct (handle c (world s)) as [r w].
  destruct (H r (mkState (stim s) w (trace s ++ [mkEntry c r])) eq_refl)
    as (b & s2 & t & E & T & HQ).
  exists b, s2, (mkEntry c r :: t). split; [exact E|]. split; [|exact HQ].
  rewrite T. cbn. rewrite <- app_assoc. reflexivity.
Qed.

Lemma runs_call_end (c : Call) s Q :
  (forall r, Q r (stim s) [mkEntry c r]) -> runs (call c) s Q.
Proof.
  intros H. unfold runs, call.
  destruct (handle c (world s)) as [r w].
  exists r, (mkState (stim s) w (trace s ++ [mkEntry c r])), [mkEntry c r].
  cbn. auto.
Qed.

Lemma runs_slot B (i : nat) (k : nat -> M B) s Q :
  i < 2 -> runs (k i) s Q -> runs (bind (slot_at i) k) s Q.
Proof.
  intros Hi H. unfold bind, slot_at, runs.
  apply Nat.ltb_lt in Hi. rewrite Hi. exact H.
Qed.

Lemma runs_vec_at A B (v : list A) (i : nat) (a : A) (k : A -> M B) s Q :
  nth_error v i = Some a -> runs (k a) s Q -> runs (bind (vec_at v i) k) s Q.
Proof.
  intros Hi H. unfold bind, vec_at, runs. rewrite Hi. exact H.
Qed.

Lemma runs_for_acc A (body : nat -> A -> M A)
    (I : nat -> A -> Stimulator -> list Entry -> Prop) n :
  forall lo a s t0,
  I lo a (stim s) t0 ->
  (forall i a1 s1 t1, lo <= i < lo + n -> I i a1 (stim s1) t1 ->
     runs (body i a1) s1 (fun a2 st t2 => I (S i) a2 st (t1 ++ t2))) ->
  runs (for_acc n lo body a) s (fun a' st t => I (lo + n) a' st (t0 ++ t)).
Proof.
  induction n as [|n IH]; intros lo a s t0 H0 Hstep.
  - apply runs_ret. rewrite Nat.add_0_r, app_nil_r. exact H0.
  - cbn [for_acc]. eapply runs_bind.
    + apply (Hstep lo a s t0); [lia | exact H0].
    + cbv beta. intros a1 s1 t1 H1.
      eapply runs_weaken.
      * apply (IH (S lo) a1 s1 (t0 ++ t1) H1).
        intros i a2 s2 t2 Hi. apply Hstep. lia.
      * cbv beta. intros a2 st t. rewrite <- app_assoc.
        replace (S lo + n) with (lo + S n) by lia. auto.
Qed.

Lemma runs_for_ret R (body : nat -> M (option R))
    (I : nat -> Stimulator -> list Entry -> Prop)
    (J : R -> Stimulator -> list Entry -> Prop) n :
  forall lo s t0,
  I lo (stim s) t0 ->
  (forall i s1 t1, lo <= i < lo + n -> I i (stim s1) t1 ->
     runs (body i) s1 (fun r st t2 =>
       match r with
       | None => I (S i) st (t1 ++ t2)
       | Some v => J v st (t1 ++ t2)
       end)) ->
  runs (for_ret n lo body) s (fun r st t =>
    match r with
    | None => I (lo + n) st (t0 ++ t)
    | Some v => J v st (t0 ++ t)
    end).
Proof.
  induction n as [|n IH]; intros lo s t0 H0 Hstep.
  - apply runs_ret. rewrite Nat.add_0_r, app_nil_r. exact H0.
  - cbn [for_ret]. eapply runs_bind.
    + apply (Hstep lo s t0); [lia | exact H0].
    + cbv beta. intros [v|] s1 t1 H1.
      * apply runs_ret. rewrite app_nil_r. exact H1.
      * eapply runs_weaken.
        -- apply (IH (S lo) s1 (t0 ++ t1) H1).
           intros i s2 t2 Hi. apply Hstep. lia.
        -- cbv beta. intros [v|] st t; rewrite <- app_assoc;
             replace (S lo + n) with (lo + S n) by lia; auto.
Qed.

Lemma runs_gets_end A (f : Stimulator -> A) s Q :
  Q (f (stim s)) (stim s) [] -> runs (gets f) s Q.
Proof. intros H. apply (runs_ret (f (stim s)) s Q H). Qed.

(** One step through a member function. *)
Ltac mstep :=
  lazymatch goal with
  | |- runs (bind (gets _) _) _ _ => apply runs_gets; cbv beta
  | |- runs (bind is_enabled _) _ _ => unfold is_enabled; apply runs_gets; cbv beta
  | |- runs (bind (observe _) _) _ _ => apply runs_observe; cbv beta
  | |- runs (bind (modify _) _) _ _ =>
      apply runs_modify; let s1 := fresh "s" in let H := fresh "Hst" in
      intros s1 H
  | |- runs (bind (call ?c) ?k) ?s0 ?Q =>
      apply (@runs_call _ c k s0 Q); let r := fresh "r" in let s1 := fresh "s" in
      let H := fresh "Hst" in intros r s1 H; cbv beta
  | |- runs (bind (slot_at _) _) _ _ => apply runs_slot; [try lia|]
  | |- runs (ret _) _ _ => apply runs_ret
  | |- runs (gets _) _ _ => apply runs_gets_end
  | |- runs (call ?c) ?s0 ?Q =>
      apply (@runs_call_end c s0 Q); let r := fresh "r" in intros r; cbv beta
  | |- runs (modify _) _ _ => apply runs_modify_end
  end.

Lemma set_m_enabled_same x : set_m_enabled (m_enabled x) x = x.
Proof. destruct x; reflexivity. Qed.

Lemma close_stimulator_runs s :
  m_num_ports (stim s) <= 2 ->
  runs close_stimulator s (fun _ st t =>
    st = set_m_enabled false (stim s) /\
    t = map (fun i => mkEntry (CloseHandle i) tt) (seq 0 (m_num_ports (stim s)))).
Proof.
  intros Hn. unfold close_stimulator. mstep.
  eapply runs_bind.
  - apply runs_for_acc with (t0 := [])
      (I := fun i (_ : unit) st t =>
              st = stim s /\
              t = map (fun i => mkEntry (CloseHandle i) tt) (seq 0 i)).
    + auto.
    + intros i [] s1 t1 Hi [Hs Ht]. mstep. mstep. destruct r.
      split; [congruence|]. subst t1.
      rewrite seq_S, map_app. reflexivity.
  - cbv beta. intros [] s1 t1 [Hs Ht]. cbn in Ht. mstep.
    rewrite Hs, app_nil_r. auto.
Qed.

Lemma disable_runs s :
  (m_enabled (stim s) = true -> m_num_ports (stim s) <= 2) ->
  runs disable s (fun _ st t =>
    st = set_m_enabled false (stim s) /\ t = disable_trace (stim s)).
Proof.
  intros Hn. unfold disable. mstep.
  unfold disable_trace. destruct (m_enabled (stim s)) eqn:He.
  - specialize (Hn eq_refl). eapply runs_bind.
    + mstep. eapply runs_bind.
      * apply runs_for_acc with (t0 := [])
          (I := fun i (_ : unit) st t =>
                  st = stim s /\
                  t = map (fun i => mkEntry (Scheduler_disable i) tt) (seq 0 i)).
        -- auto.
        -- intros i [] s1 t1 Hi [Hs Ht]. mstep. mstep. destruct r.
           split; [congruence|]. subst t1.
           rewrite seq_S, map_app. reflexivity.
      * cbv beta. intros [] s1 t1 [Hs Ht]. cbn in Ht. eapply runs_bind.
        -- apply close_stimulator_runs. rewrite Hs. exact Hn.
        -- cbv beta. intros [] s2 t2 [Hs2 Ht2]. mstep. destruct r.
           instantiate (1 := fun _ st t =>
             st = set_m_enabled false (stim s) /\
             t = map (fun i => mkEntry (Scheduler_disable i) tt)
                   (seq 0 (m_num_ports (stim s)))
                 ++ map (fun i => mkEntry (CloseHandle i) tt)
                      (seq 0 (m_num_ports (stim s)))
                 ++ [mkEntry (LOG Info "Stimulator Disabled") tt]).
           cbv beta. rewrite Hs2, Hs, Ht2, Ht, Hs. cbn. auto.
    + cbv beta. intros [] s1 t1 [Hs Ht]. mstep.
      rewrite Hs, app_nil_r. auto.
  - eapply runs_bind.
    + mstep. destruct r.
      instantiate (1 := fun _ st t => st = stim s /\ t = [not_enabled_notice]).
      cbv beta. auto.
    + cbv beta. intros [] s1 t1 [Hs Ht]. mstep.
      rewrite Hs, app_nil_r. auto.
Qed.


Lemma numbered_snoc A (mk : nat -> A -> Entry) (l : list A) (r : A) :
  forall lo, numbered mk lo (l ++ [r]) = numbered mk lo l ++ [mk (lo + List.length l) r].
Proof.
  induction l as [|a l IH]; intros lo; cbn.
  - rewrite Nat.add_0_r. reflexivity.
  - rewrite IH. replace (S lo + List.length l) with (lo + S (List.length l)) by lia.
    reflexivity.
Qed.

Lemma all_true_snoc (l : list bool) (r : bool) :
  all_true (l ++ [r]) = all_true l && r.
Proof.
  unfold all_true. rewrite forallb_app. cbn. rewrite andb_true_r. reflexivity.
Qed.

(** The shape shared by the loops of [begin], [halt_scheduler] and [update]:
    every port is asked once, the local [success] ends up as the conjunction
    of the answers. *)
Lemma ask_every_port_runs (c : nat -> Call) (mk : nat -> bool -> Entry)
    (to_bool : forall i, Resp (c i) -> bool) s :
  m_num_ports (stim s) <= 2 ->
  (forall i r, mkEntry (c i) r = mk i (to_bool i r)) ->
  runs (for_acc (m_num_ports (stim s)) 0 (fun i success =>
          si <- slot_at i ;;
          ok <- call (c si) ;;
          if negb (to_bool si ok) then ret false else ret success) true) s
    (fun success st t =>
       st = stim s /\
       exists answers, List.length answers = m_num_ports (stim s) /\
                       t = numbered mk 0 answers /\
                       success = all_true answers).
Proof.
  intros Hn Hmk.
  eapply runs_weaken.
  - apply runs_for_acc with (t0 := [])
      (I := fun i success st t =>
              st = stim s /\
              exists answers, List.length answers = i /\
                              t = numbered mk 0 answers /\
                              success = all_true answers).
    + split; [reflexivity|]. exists []. auto.
    + intros i success s1 t1 Hi (Hs & answers & Hlen & Ht & Hsucc).
      mstep. mstep.
      assert (Hpost : forall b, b = success && to_bool i r ->
                stim s0 = stim s /\
                exists answers', List.length answers' = S i /\
                  t1 ++ [mkEntry (c i) r] = numbered mk 0 answers' /\
                  b = all_true answers').
      { intros b Hb. split; [congruence|].
        exists (answers ++ [to_bool i r]). repeat split.
        - rewrite length_app. cbn. lia.
        - rewrite numbered_snoc, Hlen, Ht, Hmk. reflexivity.
        - rewrite all_true_snoc, Hb, Hsucc. reflexivity. }
      destruct (to_bool i r) eqn:Hr; cbn [negb]; mstep; apply Hpost.
      * rewrite andb_true_r. reflexivity.
      * rewrite andb_false_r. reflexivity.
  - cbv beta. intros success st t H. exact H.
Qed.

Lemma begin_runs_enabled s :
  m_num_ports (stim s) <= 2 ->
  m_enabled (stim s) = true ->
  runs begin s (fun b st t =>
    st = stim s /\
    exists answers, List.length answers = m_num_ports (stim s) /\
                    t = sync_entries answers /\ b = all_true answers).
Proof.
  intros Hn He. unfold begin. mstep. rewrite He. mstep. mstep.
  assert (Hs0 : stim s0 = stim s).
  { rewrite Hst, <- He. apply set_m_enabled_same. }
  rewrite Hs0.
  eapply runs_weaken.
  - rewrite <- Hs0.
    apply (@ask_every_port_runs Scheduler_send_sync_msg
             (fun i r => mkEntry (Scheduler_send_sync_msg i) r)
             (fun _ b => b) s0).
    + rewrite Hs0. exact Hn.
    + reflexivity.
  - cbv beta. intros b st t (Hs & answers & Hlen & Ht & Hb).
    rewrite Hs0 in *. split; [exact Hs|]. exists answers. auto.
Qed.

Lemma begin_runs_disabled s :
  m_enabled (stim s) = false ->
  runs begin s (fun b st t =>
    b = false /\ st = stim s /\ t = [mkEntry (LOG Error not_opened_text) tt]).
Proof.
  intros He. unfold begin. mstep. rewrite He. mstep. destruct r. mstep.
  auto.
Qed.

(** C4.  [disable] on a Stimulator that is already disabled leaves the object
    as it is and does nothing to the outside but write the log line
    "Stimulator has not been enabled yet." -- no scheduler is disabled and no
    handle closed.  From any state, a second [disable] right after a first
    one leaves the object exactly as the first one left it, with
    [is_enabled()] false. *)
Theorem disable_idempotent s :
  m_num_ports (stim s) <= 2 ->
  exists s1 s2,
    disable s = Ret tt s1 /\
    m_enabled (stim s1) = false /\
    (m_enabled (stim s) = false ->
       stim s1 = stim s /\ trace s1 = trace s ++ [not_enabled_notice]) /\
    disable s1 = Ret tt s2 /\
    stim s2 = stim s1 /\
    trace s2 = trace s1 ++ [not_enabled_notice].
Proof.
  intros Hn.
  destruct (@disable_runs s (fun _ => Hn)) as ([] & s1 & t1 & E1 & T1 & Hs1 & Ht1).
  assert (He1 : m_enabled (stim s1) = false) by (rewrite Hs1; reflexivity).
  destruct (@disable_runs s1) as ([] & s2 & t2 & E2 & T2 & Hs2 & Ht2).
  { rewrite He1. discriminate. }
  exists s1, s2. split; [exact E1|]. split; [exact He1|]. split.
  - intros He. split.
    + rewrite Hs1, <- He. apply set_m_enabled_same.
    + rewrite T1, Ht1. unfold disable_trace. rewrite He. reflexivity.
  - split; [exact E2|]. split.
    + rewrite Hs2, <- He1. apply set_m_enabled_same.
    + rewrite T2, Ht2. unfold disable_trace. rewrite He1. reflexivity.
Qed.

(** C7.  [begin] on a Stimulator that is not enabled returns false, leaves the
    object (and so the enabled flag) untouched and makes a single outside
    call, the error log line: no synchronisation frame is sent.  On an
    enabled Stimulator it calls [send_sync_msg] on every scheduler once, in
    port order, and returns the conjunction of their answers. *)
Theorem begin_requires_enabled s :
  m_num_ports (stim s) <= 2 ->
  (m_enabled (stim s) = false ->
     exists s',
       begin s = Ret false s' /\ stim s' = stim s /\
       trace s' = trace s ++ [mkEntry (LOG Error not_opened_text) tt]) /\
  (m_enabled (stim s) = true ->
     exists answers s',
       begin s = Ret (all_true answers) s' /\ stim s' = stim s /\
       List.length answers = m_num_ports (stim s) /\
       trace s' = trace s ++ sync_entries answers).
Proof.
  intros Hn. split; intros He.
  - destruct (begin_runs_disabled s He) as (b & s' & t & E & T & Hb & Hs & Ht).
    subst b t. exists s'. auto.
  - destruct (begin_runs_enabled s Hn He)
      as (b & s' & t & E & T & Hs & answers & Hlen & Ht & Hb).
    subst b t. exists answers, s'. auto.
Qed.


(** *** The snapshot block *)

Lemma vec_store_some A (v : list A) (x : A) :
  forall i, i < List.length v ->
  exists v', vec_store v i x = Some v' /\ List.length v' = List.length v.
Proof.
  induction v as [|a v IH]; intros i Hi; cbn in Hi; [lia|].
  destruct i as [|i]; cbn.
  - eexists. split; reflexivity.
  - destruct (IH i) as (v' & E & L); [lia|]. rewrite E.
    eexists. split; [reflexivity|]. cbn. rewrite L. reflexivity.
Qed.

Lemma store_some (field : Stimulator -> list Z)
    (set : list Z -> Stimulator -> Stimulator) s (k : nat) (v : Z) :
  k < List.length (field (stim s)) ->
  exists l, List.length l = List.length (field (stim s)) /\
            store field set k v s
            = Ret tt (mkState (set l (stim s)) (world s) (trace s)).
Proof.
  intros Hk. destruct (vec_store_some (field (stim s)) v Hk) as (l & E & L).
  exists l. split; [exact L|]. unfold store, bind, gets. rewrite E. reflexivity.
Qed.

(** A loop whose body keeps an invariant of the whole state. *)
Lemma for_acc_invariant A (body : nat -> A -> M A) (I : State -> Prop) n :
  forall lo a s,
  I s ->
  (forall i a1 s1, lo <= i < lo + n -> I s1 ->
     exists a2 s2, body i a1 s1 = Ret a2 s2 /\ I s2) ->
  exists a' s', for_acc n lo body a s = Ret a' s' /\ I s'.
Proof.
  induction n as [|n IH]; intros lo a s H0 Hstep.
  - exists a, s. split; [reflexivity | exact H0].
  - destruct (Hstep lo a s) as (a1 & s1 & E1 & H1); [lia | exact H0 |].
    destruct (IH (S lo) a1 s1 H1) as (a' & s' & E' & H').
    { intros i a2 s2 Hi. apply Hstep. lia. }
    exists a', s'. split; [|exact H'].
    cbn [for_acc]. unfold bind. rewrite E1. exact E'.
Qed.

Lemma refresh_snapshot_entry_ok s0 s (j i : nat) :
  j < 2 ->
  world s = world s0 -> trace s = trace s0 -> snapshot_only (stim s) (stim s0) ->
  match nth_error (Scheduler_get_events j (world s0)) i with
  | Some ev =>
      let k := get_channel_num (get_channel ev) in
      (k <? List.length (amplitudes (stim s0))) &&
      (k <? List.length (pulsewidths (stim s0))) &&
      (k <? List.length (max_amplitudes (stim s0))) &&
      (k <? List.length (max_pulsewidths (stim s0)))
  | None => false
  end = true ->
  exists s', refresh_snapshot_entry j i s = Ret tt s' /\
             world s' = world s0 /\ trace s' = trace s0 /\
             snapshot_only (stim s') (stim s0).
Proof.
  intros Hj Hw Ht (He & Hn & La & Lp & Lma & Lmp) Hrange.
  destruct (nth_error (Scheduler_get_events j (world s0)) i) as [ev|] eqn:Hev;
    [|discriminate].
  cbv zeta in Hrange.
  apply andb_true_iff in Hrange. destruct Hrange as [Hrange Hmp].
  apply andb_true_iff in Hrange. destruct Hrange as [Hrange Hma].
  apply andb_true_iff in Hrange. destruct Hrange as [Ha Hp].
  apply Nat.ltb_lt in Ha, Hp, Hma, Hmp.
  unfold refresh_snapshot_entry, bind, slot_at, observe, vec_at, ret.
  apply Nat.ltb_lt in Hj. rewrite Hj, Hw, Hev. cbv beta iota zeta.
  rewrite ?Hw.
  set (k := get_channel_num (get_channel ev)) in *.
  destruct (@store_some amplitudes set_amplitudes s k
              (Scheduler_get_amp j (get_channel ev) (world s0)))
    as (l1 & L1 & E1); [lia|].
  rewrite E1. cbv beta iota. cbn [world].
  match goal with |- context [store pulsewidths set_pulsewidths k ?v ?st] =>
    destruct (@store_some pulsewidths set_pulsewidths st k v)
      as (l2 & L2 & E2); [cbn; lia|] end.
  rewrite E2. cbv beta iota.
  match goal with |- context [store max_amplitudes set_max_amplitudes k ?v ?st] =>
    destruct (@store_some max_amplitudes set_max_amplitudes st k v)
      as (l3 & L3 & E3); [cbn; lia|] end.
  rewrite E3. cbv beta iota.
  match goal with |- context [store max_pulsewidths set_max_pulsewidths k ?v ?st] =>
    destruct (@store_some max_pulsewidths set_max_pulsewidths st k v)
      as (l4 & L4 & E4); [cbn; lia|] end.
  rewrite E4. eexists. split; [reflexivity|].
  cbn in *. unfold snapshot_only. cbn. repeat split; congruence.
Qed.

Lemma refresh_snapshot_ok s :
  m_num_ports (stim s) <= 2 ->
  snapshot_in_range (stim s) (world s) = true ->
  exists s', refresh_snapshot s = Ret tt s' /\
             world s' = world s /\ trace s' = trace s /\
             snapshot_only (stim s') (stim s).
Proof.
  intros Hn Hrange. unfold snapshot_in_range in Hrange.
  rewrite forallb_forall in Hrange.
  pose (I := fun s1 : State =>
               world s1 = world s /\ trace s1 = trace s /\
               snapshot_only (stim s1) (stim s)).
  assert (HI : I s) by (unfold I, snapshot_only; repeat split; reflexivity).
  unfold refresh_snapshot, bind at 1, gets.
  destruct (@for_acc_invariant unit
              (fun j _ =>
                 sj <- slot_at j ;;
                 count <- observe (Scheduler_get_num_events sj) ;;
                 for_acc count 0 (fun i _ => refresh_snapshot_entry j i) tt)
              I (m_num_ports (stim s)) 0 tt s HI) as ([] & s' & E & H').
  - intros j [] s1 Hj (Hw & Ht & Hs).
    assert (Hj2 : j < 2) by lia.
    specialize (Hrange j). rewrite in_seq in Hrange.
    assert (Hrj := Hrange ltac:(lia)). rewrite forallb_forall in Hrj.
    unfold bind at 1, slot_at. apply Nat.ltb_lt in Hj2. rewrite Hj2. cbn [ret].
    unfold bind at 1, observe. rewrite Hw.
    apply for_acc_invariant.
    + unfold I. auto.
    + intros i [] s2 Hi (Hw2 & Ht2 & Hs2).
      destruct (@refresh_snapshot_entry_ok s s2 j i) as (s3 & E3 & H3); auto.
      * apply Nat.ltb_lt. exact Hj2.
      * apply Hrj. apply in_seq. lia.
      * exists tt, s3. split; [exact E3 | exact H3].
  - exists s'. split; [exact E | exact H'].
Qed.


(** *** [update] *)

Lemma runs_after A B (m : M A) (k : A -> M B) s a s1 Q :
  m s = Ret a s1 -> trace s1 = trace s ->
  runs (k a) s1 Q -> runs (bind m k) s Q.
Proof.
  intros E T (b & s2 & t & E2 & T2 & HQ). exists b, s2, t.
  unfold bind. rewrite E. split; [exact E2|]. split; [|exact HQ].
  rewrite T2, T. reflexivity.
Qed.

Lemma runs_ret_bind A B (a : A) (k : A -> M B) s Q :
  runs (k a) s Q -> runs (bind (ret a) k) s Q.
Proof. intros H. exact H. Qed.

Lemma firstn_snoc A (l : list A) :
  forall i a, nth_error l i = Some a -> firstn (S i) l = firstn i l ++ [a].
Proof.
  induction l as [|b l IH]; intros [|i] a H; cbn in H; try discriminate.
  - injection H as ->. reflexivity.
  - change (b :: firstn (S i) l = b :: (firstn i l ++ [a])).
    f_equal. apply IH. exact H.
Qed.

Lemma nth_error_in_range A (l : list A) (i : nat) :
  i < List.length l -> exists a, nth_error l i = Some a.
Proof.
  intros Hi. destruct (nth_error l i) as [a|] eqn:E; [eauto|].
  apply nth_error_None in E. lia.
Qed.

Lemma complaints_snoc (frames : list ReadMessage) (m : ReadMessage) :
  complaints (frames ++ [m])
  = complaints frames
    ++ (if is_valid m then []
        else [mkEntry (LOG Error invalid_frame_text) tt;
              mkEntry (print_message (get_message m)) tt]).
Proof.
  unfold complaints. rewrite flat_map_app. cbn. rewrite app_nil_r. reflexivity.
Qed.

(** The loop of [update] over the drained frames. *)
Lemma drain_runs (frames : list ReadMessage) (success0 : bool) s :
  runs (for_acc (List.length frames) 0 (fun i success =>
          msg <- vec_at frames i ;;
          if negb (is_valid msg) then
            call (LOG Error invalid_frame_text) ;;
            call (print_message (get_message msg)) ;;
            ret false
          else ret success) success0) s
    (fun success st t =>
       st = stim s /\ t = complaints frames /\
       success = success0 && forallb is_valid frames).
Proof.
  eapply runs_weaken.
  - apply runs_for_acc with (t0 := [])
      (I := fun i success st t =>
              st = stim s /\ t = complaints (firstn i frames) /\
              success = success0 && forallb is_valid (firstn i frames)).
    + cbn. rewrite andb_true_r. auto.
    + intros i success s1 t1 Hi (Hs & Ht & Hsucc).
      destruct (@nth_error_in_range _ frames i) as (msg & Hmsg); [lia|].
      eapply runs_vec_at; [exact Hmsg|].
      rewrite (firstn_snoc _ _ Hmsg), complaints_snoc, forallb_app.
      cbn [forallb]. rewrite andb_true_r.
      destruct (is_valid msg); cbn [negb].
      * mstep. rewrite !app_nil_r, andb_true_r. auto.
      * mstep. mstep. mstep. destruct r, r0.
        rewrite !andb_false_r. split; [congruence|]. split; [|reflexivity].
        rewrite Ht. reflexivity.
  - cbv beta. intros success st t. cbn [Nat.add app].
    rewrite firstn_all. auto.
Qed.

Lemma disable_trace_ext x y :
  m_enabled x = m_enabled y -> m_num_ports x = m_num_ports y ->
  disable_trace x = disable_trace y.
Proof. intros He Hn. unfold disable_trace. rewrite He, Hn. reflexivity. Qed.

Lemma update_runs s :
  m_num_ports (stim s) <= 2 ->
  m_enabled (stim s) = true ->
  snapshot_in_range (stim s) (world s) = true ->
  runs update s (fun b st t =>
    exists answers frames,
      List.length answers = m_num_ports (stim s) /\
      t = update_entries answers
          ++ mkEntry (get_all_messages (m_num_ports (stim s))) frames
             :: complaints frames
          ++ (if b then [] else disable_trace (stim s)) /\
      b = all_true answers && forallb is_valid frames /\
      m_enabled st = b).
Proof.
  intros Hn He Hrange. unfold update. mstep. rewrite He.
  destruct (refresh_snapshot_ok s Hn Hrange)
    as (s0 & E0 & Hw0 & Ht0 & He0 & Hn0 & _).
  eapply runs_after; [exact E0 | exact Ht0 |].
  mstep. eapply runs_bind.
  - apply (@ask_every_port_runs Scheduler_update
             (fun i r => mkEntry (Scheduler_update i) r) (fun _ b => b) s0).
    + lia.
    + reflexivity.
  - cbv beta. intros success s1 t1 (Hs1 & answers & Hlen & Ht1 & Hsucc).
    mstep. mstep. rename r into frames. eapply runs_bind.
    + apply drain_runs.
    + cbv beta. intros success' s3 t3 (Hs3 & Ht3 & Hsucc').
      assert (Hs30 : stim s3 = stim s0) by congruence.
      destruct success'; cbn [negb].
      * apply runs_ret_bind. mstep. exists answers, frames.
        rewrite !app_nil_r, Hs30, He0, He, Ht1, Ht3, Hs1, Hn0, Hsucc', Hsucc.
        repeat split; auto. congruence.
      * eapply runs_bind.
        -- apply disable_runs. intros _. rewrite Hs30. lia.
        -- cbv beta. intros [] s4 t4 (Hs4 & Ht4). mstep.
           exists answers, frames.
           rewrite !app_nil_r, Hs4, Ht4, Ht1, Ht3, Hs1, Hn0, Hsucc', Hsucc.
           rewrite (@disable_trace_ext (stim s3) (stim s)) by congruence.
           repeat split; auto. congruence.
Qed.










(** *** [add_event] and [add_events] *)

Lemma add_event_runs s (ch : Channel) (event_type : Z) :
  m_enabled (stim s) = true -> get_board_num ch < 2 ->
  runs (add_event ch event_type) s (fun b st t =>
    st = stim s /\ t = [added (stim s) event_type b ch]).
Proof.
  intros He Hb. unfold add_event. mstep. rewrite He. mstep. mstep. mstep. mstep.
  rewrite Hst. auto.
Qed.

Lemma nth_error_split_at A (l : list A) (i : nat) (a : A) :
  nth_error l i = Some a -> l = firstn i l ++ a :: skipn (S i) l.
Proof.
  intros H. rewrite <- (firstn_skipn (S i) l) at 1.
  rewrite (firstn_snoc _ _ H), <- app_assoc. reflexivity.
Qed.

Lemma add_events_runs s (channels_ : list Channel) (event_type : Z) :
  m_enabled (stim s) = true -> boards_ok channels_ ->
  runs (add_events channels_ event_type) s (fun b st t =>
    st = stim s /\
    if b then t = map (added (stim s) event_type true) channels_
    else exists before ch after,
           channels_ = before ++ ch :: after /\
           t = map (added (stim s) event_type true) before
               ++ [added (stim s) event_type false ch]).
Proof.
  intros He Hboards. unfold add_events. mstep. rewrite He.
  eapply runs_bind.
  - apply runs_for_ret with (t0 := [])
      (I := fun i st t =>
              st = stim s /\
              t = map (added (stim s) event_type true) (firstn i channels_))
      (J := fun (b : bool) st t =>
              b = false /\ st = stim s /\
              exists before ch after,
                channels_ = before ++ ch :: after /\
                t = map (added (stim s) event_type true) before
                    ++ [added (stim s) event_type false ch]).
    + auto.
    + intros i s1 t1 Hi (Hs1 & Ht1).
      destruct (@nth_error_in_range _ channels_ i) as (ch & Hch); [lia|].
      eapply runs_vec_at; [exact Hch|].
      eapply runs_bind.
      * apply add_event_runs; [congruence|].
        unfold boards_ok in Hboards. rewrite Forall_forall in Hboards.
        apply Hboards. eapply nth_error_In. exact Hch.
      * cbv beta. intros ok s2 t2 (Hs2 & Ht2). rewrite Hs1 in Ht2.
        destruct ok; cbn [negb]; mstep; rewrite app_nil_r.
        -- split; [congruence|].
           rewrite (firstn_snoc _ _ Hch), map_app, Ht1, Ht2. reflexivity.
        -- split; [reflexivity|]. split; [congruence|].
           exists (firstn i channels_), ch, (skipn (S i) channels_).
           split; [apply nth_error_split_at; exact Hch|].
           rewrite Ht1, Ht2. reflexivity.
  - cbv beta. cbn [app Nat.add]. intros [b|] s1 t1.
    + intros (Hb & Hs1 & Hsplit). mstep. rewrite app_nil_r. subst b. auto.
    + intros (Hs1 & Ht1). mstep. rewrite app_nil_r, firstn_all in *. auto.
Qed.

(** C8.  On an enabled Stimulator [add_events] calls [add_event] for the
    channels in list order.  It returns true exactly when every one of them
    was added.  Otherwise it returns false at the first channel whose
    [add_event] fails: the channels before it were added and nothing is done
    to undo them, the channels after it are never attempted. *)
Theorem add_events_fails_fast s (channels_ : list Channel) (event_type : Z) :
  m_enabled (stim s) = true ->
  boards_ok channels_ ->
  exists b s' t,
    add_events channels_ event_type s = Ret b s' /\
    stim s' = stim s /\
    trace s' = trace s ++ t /\
    (b = true -> t = map (added (stim s) event_type true) channels_) /\
    (b = false ->
       exists before ch after,
         channels_ = before ++ ch :: after /\
         t = map (added (stim s) event_type true) before
             ++ [added (stim s) event_type false ch]).
Proof.
  intros He Hboards.
  destruct (add_events_runs s event_type He Hboards)
    as (b & s' & t & E & T & Hs & Ht).
  exists b, s', t. repeat split; auto.
  - intros ->. exact Ht.
  - intros ->. exact Ht.
Qed.

(** *** [set_amps] and [write_pws] *)

Lemma nth_error_combine A B (l : list A) (l' : list B) :
  forall i a b, nth_error l i = Some a -> nth_error l' i = Some b ->
  nth_error (combine l l') i = Some (a, b).
Proof.
  revert l'. induction l as [|x l IH]; intros [|y l'] [|i] a b Ha Hb;
    cbn in *; try discriminate.
  - congruence.
  - apply IH; assumption.
Qed.

(** A loop that walks a channel vector and a value vector by the same
    index, as [set_amps] and [write_pws] do. *)
Lemma paired_loop_runs (f : Channel -> Z -> M unit)
    (entry : Channel -> Z -> Entry) (chs : list Channel) (vals : list Z) s :
  (forall ch v s1, In ch chs -> stim s1 = stim s ->
     runs (f ch v) s1 (fun _ st t => st = stim s /\ t = [entry ch v])) ->
  List.length chs <= List.length vals ->
  runs (for_acc (List.length chs) 0 (fun i _ =>
          ch <- vec_at chs i ;; v <- vec_at vals i ;; f ch v) tt) s
    (fun _ st t =>
       st = stim s /\
       t = map (fun p => entry (fst p) (snd p)) (combine chs vals)).
Proof.
  intros Hf Hlen. eapply runs_weaken.
  - apply runs_for_acc with (t0 := [])
      (I := fun i (_ : unit) st t =>
              st = stim s /\
              t = map (fun p => entry (fst p) (snd p))
                    (firstn i (combine chs vals))).
    + auto.
    + intros i [] s1 t1 Hi (Hs1 & Ht1).
      destruct (@nth_error_in_range _ chs i) as (ch & Hch); [lia|].
      destruct (@nth_error_in_range _ vals i) as (v & Hv); [lia|].
      eapply runs_vec_at; [exact Hch|].
      eapply runs_vec_at; [exact Hv|].
      eapply runs_weaken.
      * apply Hf; [eapply nth_error_In; exact Hch | exact Hs1].
      * cbv beta. intros [] st t (Hst & Ht). split; [exact Hst|].
        rewrite (firstn_snoc _ _ (nth_error_combine _ _ _ Hch Hv)), map_app.
        rewrite Ht1, Ht. reflexivity.
  - cbv beta. cbn [app Nat.add]. intros [] st t (Hst & Ht).
    split; [exact Hst|]. rewrite Ht. f_equal. apply firstn_all2.
    rewrite length_combine. lia.
Qed.

Lemma for_acc_undefined A (body : nat -> A -> M A) (bad : nat) n :
  forall lo a s,
  lo <= bad < lo + n ->
  (forall a1 s1, body bad a1 s1 = Undefined) ->
  for_acc n lo body a s = Undefined.
Proof.
  induction n as [|n IH]; intros lo a s Hbad Hbody; [lia|].
  cbn [for_acc]. unfold bind.
  destruct (body lo a s) as [a1 s1|] eqn:E; [|reflexivity].
  destruct (Nat.eq_dec bad lo) as [->|Hne].
  - rewrite Hbody in E. discriminate.
  - apply IH; [lia | exact Hbody].
Qed.

Lemma paired_loop_undefined (f : Channel -> Z -> M unit)
    (chs : list Channel) (vals : list Z) s :
  List.length vals < List.length chs ->
  for_acc (List.length chs) 0 (fun i _ =>
    ch <- vec_at chs i ;; v <- vec_at vals i ;; f ch v) tt s = Undefined.
Proof.
  intros Hlen. apply for_acc_undefined with (bad := List.length vals); [lia|].
  intros [] s1. unfold bind, vec_at.
  destruct (nth_error chs (List.length vals)) as [ch|]; [|reflexivity].
  cbn. replace (nth_error vals (List.length vals)) with (@None Z); [reflexivity|].
  symmetry. apply nth_error_None. lia.
Qed.

Lemma set_amp_runs s (ch : Channel) (amp : Z) :
  get_board_num ch < 2 ->
  runs (set_amp ch amp) s (fun _ st t =>
    st = stim s /\ t = [set_amp_entry (stim s) ch amp]).
Proof.
  intros Hb. unfold set_amp, set_amp_entry. mstep.
  destruct (m_enabled (stim s)).
  - mstep. mstep. destruct r. auto.
  - mstep. destruct r. auto.
Qed.

Lemma write_pw_runs s (ch : Channel) (pw : Z) :
  get_board_num ch < 2 ->
  runs (write_pw ch pw) s (fun _ st t =>
    st = stim s /\ t = [write_pw_entry (stim s) ch pw]).
Proof.
  intros Hb. unfold write_pw, write_pw_entry. mstep.
  destruct (m_enabled (stim s)).
  - mstep. mstep. destruct r. auto.
  - mstep. destruct r. auto.
Qed.

(** C10.  [set_amps] and [write_pws] index the value vector with every index
    of the channel vector and never look at its size.  When it has at least
    as many elements as the channel vector every access is in range and each
    channel is paired with the value at its own index; when it is shorter the
    loop reads past its end, which is undefined behaviour. *)
Theorem set_amps_write_pws_need_enough_values s
    (channels_ : list Channel) (values_ : list Z) :
  boards_ok channels_ ->
  (List.length channels_ <= List.length values_ ->
     exists s1 s2,
       set_amps channels_ values_ s = Ret tt s1 /\
       trace s1 = trace s ++ map (fun p => set_amp_entry (stim s) (fst p) (snd p))
                               (combine channels_ values_) /\
       write_pws channels_ values_ s = Ret tt s2 /\
       trace s2 = trace s ++ map (fun p => write_pw_entry (stim s) (fst p) (snd p))
                               (combine channels_ values_)) /\
  (List.length values_ < List.length channels_ ->
     set_amps channels_ values_ s = Undefined /\
     write_pws channels_ values_ s = Undefined).
Proof.
  intros Hboards. unfold boards_ok in Hboards. rewrite Forall_forall in Hboards.
  split; intros Hlen.
  - destruct (@paired_loop_runs set_amp (set_amp_entry (stim s))
                channels_ values_ s) as ([] & s1 & t1 & E1 & T1 & _ & Ht1); auto.
    { intros ch v s1 Hin Hs1. rewrite <- Hs1. apply set_amp_runs. auto. }
    destruct (@paired_loop_runs write_pw (write_pw_entry (stim s))
                channels_ values_ s) as ([] & s2 & t2 & E2 & T2 & _ & Ht2); auto.
    { intros ch v s2 Hin Hs2. rewrite <- Hs2. apply write_pw_runs. auto. }
    exists s1, s2. subst t1 t2. auto.
  - split; apply paired_loop_undefined; exact Hlen.
Qed.


(** *** [create_scheduler] *)

Lemma returns_ret A (P : A -> Prop) (a : A) : P a -> returns P (ret a).
Proof. intros H s. exact H. Qed.

Lemma returns_bind A B (P : B -> Prop) (m : M A) (k : A -> M B) :
  (forall a, returns P (k a)) -> returns P (bind m k).
Proof.
  intros H s. unfold bind. destruct (m s) as [a s1|]; [apply H | exact I].
Qed.

Lemma returns_for_ret R (P : option R -> Prop) (body : nat -> M (option R)) n :
  P None -> (forall i, returns (fun r => r = None \/ P r) (body i)) ->
  forall lo, returns P (for_ret n lo body).
Proof.
  intros HN Hbody. induction n as [|n IH]; intros lo s; [exact HN|].
  cbn [for_ret]. unfold bind. specialize (Hbody lo s).
  destruct (body lo s) as [[v|] s1|]; [| apply IH | exact I].
  destruct Hbody as [Hbody | Hbody]; [discriminate | exact Hbody].
Qed.

Lemma returns_seq A B (P1 : A -> Prop) (P : B -> Prop) (m : M A) (k : A -> M B) :
  returns P1 m -> (forall a, P1 a -> returns P (k a)) -> returns P (bind m k).
Proof.
  intros H1 H s. unfold bind. specialize (H1 s).
  destruct (m s) as [a s1|]; [apply H; exact H1 | exact I].
Qed.

Ltac returns_branch :=
  lazymatch goal with
  | |- returns _ (bind _ _) => apply returns_bind; intros ?; returns_branch
  | |- returns _ (ret _) => apply returns_ret; auto
  | |- returns _ (if ?c then _ else _) => destruct c; returns_branch
  end.

(** Whatever the device answers, [create_scheduler] never returns true. *)
Lemma create_scheduler_never_true (sync_msg : Z) (frequency_ : double) :
  returns (fun b => b = false) (create_scheduler sync_msg frequency_).
Proof.
  unfold create_scheduler.
  apply returns_bind. intros duration.
  apply returns_bind. intros [|].
  - apply returns_bind. intros n.
    apply returns_seq with (P1 := fun r => r = None \/ r = Some false).
    + apply returns_for_ret; [auto|]. intros i. returns_branch.
    + intros r [-> | ->]; apply returns_ret; reflexivity.
  - returns_branch.
Qed.


Lemma runs_call_from B (c : Call) (k : Resp c -> M B) s Q :
  (forall r s1, stim s1 = stim s -> (exists w, r = fst (handle c w)) ->
     runs (k r) s1 (fun b st t => Q b st (mkEntry c r :: t))) ->
  runs (bind (call c) k) s Q.
Proof.
  intros H. unfold runs, bind, call.
  destruct (handle c (world s)) as [r w] eqn:Hc.
  destruct (H r (mkState (stim s) w (trace s ++ [mkEntry c r])) eq_refl)
    as (b & s2 & t & E & T & HQ).
  { exists (world s). rewrite Hc. reflexivity. }
  exists b, s2, (mkEntry c r :: t). split; [exact E|]. split; [|exact HQ].
  rewrite T. cbn. rewrite <- app_assoc. reflexivity.
Qed.

Lemma all_valid_snoc (rounds : list (bool * ReadMessage)) (round : bool * ReadMessage) :
  all_valid (rounds ++ [round]) = all_valid rounds && is_valid (snd round).
Proof.
  unfold all_valid. rewrite forallb_app. cbn. rewrite andb_true_r. reflexivity.
Qed.

Lemma handshake_entries_snoc x (sync_msg duration : Z)
    (rounds : list (bool * ReadMessage)) (round : bool * ReadMessage) :
  forall lo,
  all_valid rounds = true ->
  handshake_entries x sync_msg duration lo (rounds ++ [round])
  = handshake_entries x sync_msg duration lo rounds
    ++ handshake_entries x sync_msg duration (lo + List.length rounds) [round].
Proof.
  induction rounds as [|[answer frame] rest IH]; intros lo Hall.
  - cbn [app List.length handshake_entries]. rewrite Nat.add_0_r. reflexivity.
  - unfold all_valid in Hall. cbn [forallb snd] in Hall.
    apply andb_true_iff in Hall. destruct Hall as [Hframe Hrest].
    cbn [app List.length]. cbn [handshake_entries]. rewrite Hframe.
    replace (lo + S (List.length rest)) with (S lo + List.length rest) by lia.
    rewrite (IH (S lo) Hrest). reflexivity.
Qed.

Lemma create_scheduler_runs s (sync_msg : Z) (frequency_ : double) (duration : Z) :
  m_num_ports (stim s) <= 2 ->
  m_enabled (stim s) = true ->
  m_is_virtual (stim s) = false ->
  tick_duration frequency_ = Some duration ->
  acks_carry_id ->
  runs (create_scheduler sync_msg frequency_) s (fun b st t =>
    b = false /\
    exists rounds,
      List.length rounds <= m_num_ports (stim s) /\
      t = handshake_entries (stim s) sync_msg duration 0 rounds /\
      if all_valid rounds
      then List.length rounds = m_num_ports (stim s) /\ st = stim s
      else st = set_m_enabled false (stim s)).
Proof.
  intros Hn He Hvirt Hd Hacks. unfold create_scheduler. rewrite Hd.
  apply runs_ret_bind. mstep. rewrite He. cbv zeta. mstep.
  eapply runs_bind.
  - apply runs_for_ret with (t0 := [])
      (I := fun i st t =>
              st = stim s /\
              exists rounds,
                List.length rounds = i /\ all_valid rounds = true /\
                t = handshake_entries (stim s) sync_msg duration 0 rounds)
      (J := fun (b : bool) st t =>
              b = false /\ st = set_m_enabled false (stim s) /\
              exists rounds,
                List.length rounds <= m_num_ports (stim s) /\
                all_valid rounds = false /\
                t = handshake_entries (stim s) sync_msg duration 0 rounds).
    + split; [reflexivity|]. exists []. auto.
    + intros i s1 t1 Hi (Hs1 & rounds & Hlen & Hall & Ht1).
      mstep. mstep. mstep. rewrite Hs1. mstep. rename r into answer.
      mstep. rewrite Hst, Hs1, Hvirt. cbn [negb]. mstep.
      apply runs_call_from. intros frame s2 Hs2 (w & Hframe). cbv beta.
      assert (Hround : t1 ++ handshake_entries (stim s) sync_msg duration i
                               [(answer, frame)]
                       = handshake_entries (stim s) sync_msg duration 0
                           (rounds ++ [(answer, frame)])).
      { rewrite handshake_entries_snoc by exact Hall.
        rewrite Hlen, Ht1. reflexivity. }
      destruct (is_valid frame) eqn:Hvalid.
      * mstep.
        assert (Hdata : get_data frame <> []).
        { rewrite Hframe. apply Hacks. rewrite <- Hframe. exact Hvalid. }
        destruct (get_data frame) as [|id payload] eqn:Hpayload;
          [contradiction Hdata; reflexivity|].
        eapply runs_vec_at; [reflexivity|].
        mstep. destruct r. mstep.
        split; [congruence|]. exists (rounds ++ [(answer, frame)]).
        split; [rewrite length_app; cbn; lia|].
        split; [rewrite all_valid_snoc, Hall; exact Hvalid|].
        rewrite <- Hround. cbn [handshake_entries]. rewrite Hvalid, Hpayload.
        reflexivity.
      * mstep. mstep. destruct r, r0. eapply runs_bind.
        -- apply disable_runs. intros _. rewrite Hst1, Hst0, Hs2, Hst, Hs1. exact Hn.
        -- cbv beta. intros [] s5 t5 (Hs5 & Ht5). mstep.
           split; [reflexivity|].
           assert (Hs4 : stim s4 = stim s) by congruence.
           split; [rewrite Hs5, Hs4; reflexivity|].
           exists (rounds ++ [(answer, frame)]).
           split; [rewrite length_app; cbn; lia|].
           split; [rewrite all_valid_snoc, Hall; exact Hvalid|].
           rewrite <- Hround. cbn [handshake_entries]. rewrite Hvalid.
           rewrite Ht5, Hs4, app_nil_r. reflexivity.
  - cbv beta. cbn [app Nat.add]. intros [b|] s1 t1.
    + intros (Hb & Hs1 & rounds & Hlen & Hall & Ht1). mstep.
      split; [exact Hb|]. exists rounds. rewrite app_nil_r, Hall. auto.
    + intros (Hs1 & rounds & Hlen & Hall & Ht1). mstep.
      split; [reflexivity|]. exists rounds. rewrite app_nil_r, Hall.
      repeat split; auto. lia.
Qed.


(** *** [enable] *)

Lemma same_setup_refl x : same_setup x x.
Proof. unfold same_setup. auto. Qed.

Lemma same_setup_trans x y z : same_setup x y -> same_setup y z -> same_setup x z.
Proof. unfold same_setup. intuition congruence. Qed.

Lemma same_setup_enabled b x : same_setup (set_m_enabled b x) x.
Proof. unfold same_setup. cbn. auto. Qed.

Lemma same_setup_dcb d x : same_setup (set_m_dcbSerialParams d x) x.
Proof. unfold same_setup. cbn. auto. Qed.

Lemma steps_app t1 t2 : steps (t1 ++ t2) = steps t1 ++ steps t2.
Proof. unfold steps. apply flat_map_app. Qed.

Lemma steps_map_silent (f : nat -> Entry) (l : list nat) :
  (forall i, step_of (f i) = []) -> steps (map f l) = [].
Proof.
  intros Hf. induction l as [|i l IH]; [reflexivity|].
  unfold steps in *. cbn [map flat_map]. rewrite Hf, IH. reflexivity.
Qed.

Lemma steps_disable_trace x : steps (disable_trace x) = [].
Proof.
  unfold disable_trace. destruct (m_enabled x); [|reflexivity].
  rewrite !steps_app, !steps_map_silent by reflexivity. reflexivity.
Qed.

Lemma fails_at_prepend t0 t tail :
  forallb resp_ok t0 = true -> fails_at t tail -> fails_at (t0 ++ t) tail.
Proof.
  intros H0 (t1 & e & -> & H1 & He). exists (t0 ++ t1), e.
  rewrite <- app_assoc, forallb_app, H0, H1. auto.
Qed.

Lemma fails_at_append t tail more :
  fails_at t tail -> fails_at (t ++ more) (tail ++ more).
Proof.
  intros (t1 & e & -> & H1 & He). exists t1, e.
  rewrite <- app_assoc. auto.
Qed.

Lemma prefix_of_refl A (l : list A) : prefix_of l l.
Proof. exists []. rewrite app_nil_r. reflexivity. Qed.

Lemma prefix_of_app A (l l1 l2 : list A) :
  prefix_of l1 l2 -> prefix_of (l ++ l1) (l ++ l2).
Proof. intros (rest & ->). exists rest. rewrite app_assoc. reflexivity. Qed.

Lemma prefix_of_app_l A (l1 l2 : list A) : prefix_of l1 (l1 ++ l2).
Proof. exists l2. reflexivity. Qed.

Lemma port_steps_S n : port_steps (S n) = port_steps n ++ [Open n; Configure n].
Proof.
  unfold port_steps. rewrite seq_S, flat_map_app. cbn. reflexivity.
Qed.

Lemma port_steps_prefix i n :
  i <= n -> prefix_of (port_steps i) (port_steps n).
Proof.
  intros Hi. replace n with (i + (n - i)) by lia.
  unfold port_steps. rewrite seq_app, flat_map_app. apply prefix_of_app_l.
Qed.

Lemma open_port_runs s (h : nat) (port : string) :
  runs (open_port h port) s (fun ok st t =>
    st = stim s /\ steps t = [Open h] /\
    if ok then forallb resp_ok t = true
    else exists text, fails_at t [mkEntry (LOG Error text) tt]).
Proof.
  unfold open_port. cbv zeta. mstep. destruct r; cbn [negb].
  - mstep. destruct r. mstep. split; [congruence|]. split; reflexivity.
  - mstep. destruct r. mstep. split; [congruence|]. split; [reflexivity|].
    eexists. exists [], (mkEntry (CreateFileW h (com_prefix ++ port)) false).
    repeat split; reflexivity.
Qed.

Lemma configure_port_runs s (h : nat) :
  runs (configure_port h) s (fun ok st t =>
    same_setup st (stim s) /\ m_enabled st = m_enabled (stim s) /\
    steps t = [Configure h] /\
    if ok then forallb resp_ok t = true
    else exists text, fails_at t [mkEntry (LOG Error text) tt]).
Proof.
  unfold configure_port. mstep. mstep. destruct r as [got dcb].
  assert (Hsetup1 : same_setup (stim s1) (stim s) /\
                    m_enabled (stim s1) = m_enabled (stim s)).
  { rewrite Hst0, Hst. cbn. split; [apply same_setup_dcb | reflexivity]. }
  destruct Hsetup1 as [Hsame1 He1].
  destruct got; cbn [negb fst snd].
  - mstep. mstep. mstep.
    assert (Hsetup3 : same_setup (stim s3) (stim s) /\
                      m_enabled (stim s3) = m_enabled (stim s)).
    { rewrite Hst2, Hst1. cbn. split.
      - eapply same_setup_trans; [apply same_setup_dcb | exact Hsame1].
      - exact He1. }
    destruct Hsetup3 as [Hsame3 He3].
    destruct r; cbn [negb].
    + mstep. destruct r; cbn [negb].
      * mstep. mstep. mstep. mstep. destruct r, r0, r1, r2. mstep.
        rewrite Hst7, Hst6, Hst5, Hst4, Hst3. auto.
      * mstep. destruct r. mstep. rewrite Hst4, Hst3.
        split; [exact Hsame3|]. split; [exact He3|]. split; [reflexivity|].
        eexists.
        exists [mkEntry (GetCommState h) (true, dcb);
                mkEntry (SetCommState h (m_dcbSerialParams (stim s2))) true],
               (mkEntry (SetCommTimeouts h port_timeouts) false).
        repeat split; reflexivity.
    + mstep. destruct r. mstep. rewrite Hst3.
      split; [exact Hsame3|]. split; [exact He3|]. split; [reflexivity|].
      eexists.
      exists [mkEntry (GetCommState h) (true, dcb)],
             (mkEntry (SetCommState h (m_dcbSerialParams (stim s2))) false).
      repeat split; reflexivity.
  - mstep. destruct r. mstep. rewrite Hst1.
    split; [exact Hsame1|]. split; [exact He1|]. split; [reflexivity|].
    eexists. exists [], (mkEntry (GetCommState h) (false, dcb)).
    repeat split; reflexivity.
Qed.


Lemma steps_setup_entries (chs : list Channel) (delay : Z) :
  steps (map (fun ch => mkEntry (setup_channel ch (get_board_num ch) delay) true) chs)
  = map Setup chs.
Proof.
  induction chs as [|ch l IH]; [reflexivity|].
  cbn [map]. unfold steps in *. cbn [flat_map]. rewrite IH. reflexivity.
Qed.

Lemma setup_entries_ok (chs : list Channel) (delay : Z) :
  forallb resp_ok
    (map (fun ch => mkEntry (setup_channel ch (get_board_num ch) delay) true) chs)
  = true.
Proof. induction chs as [|ch l IH]; [reflexivity|]. cbn. exact IH. Qed.

Lemma initialize_board_runs s :
  boards_ok (m_channels (stim s)) ->
  runs initialize_board s (fun ok st t =>
    st = stim s /\
    if ok then forallb resp_ok t = true /\ steps t = map Setup (m_channels (stim s))
    else fails_at t [] /\
         prefix_of (steps t) (map Setup (m_channels (stim s)))).
Proof.
  intros Hboards. unfold boards_ok in Hboards. rewrite Forall_forall in Hboards.
  unfold initialize_board. mstep.
  set (chs := m_channels (stim s)) in *.
  set (entry := fun ch => mkEntry (setup_channel ch (get_board_num ch)
                                      (m_delay_time (stim s))) true).
  eapply runs_bind.
  - apply runs_for_ret with (t0 := [])
      (I := fun i st t => st = stim s /\ t = map entry (firstn i chs))
      (J := fun (b : bool) st t =>
              b = false /\ st = stim s /\ fails_at t [] /\
              prefix_of (steps t) (map Setup chs)).
    + auto.
    + intros i s1 t1 Hi (Hs1 & Ht1).
      destruct (@nth_error_in_range _ chs i) as (ch & Hch); [lia|].
      eapply runs_vec_at; [exact Hch|].
      mstep; [apply Hboards; eapply nth_error_In; exact Hch|].
      mstep. rewrite Hs1. mstep.
      destruct r; cbn [negb]; mstep.
      * split; [congruence|].
        rewrite (firstn_snoc _ _ Hch), map_app, Ht1. reflexivity.
      * split; [reflexivity|]. split; [congruence|]. split.
        -- exists t1, (mkEntry (setup_channel ch (get_board_num ch)
                                  (m_delay_time (stim s))) false).
           split; [reflexivity|]. split; [|reflexivity].
           rewrite Ht1. apply setup_entries_ok.
        -- rewrite steps_app, Ht1. unfold entry. rewrite steps_setup_entries.
           cbn. rewrite (nth_error_split_at _ _ Hch) at 2.
           rewrite map_app. cbn [map].
           exists (map Setup (skipn (S i) chs)).
           rewrite <- app_assoc. reflexivity.
  - cbv beta. cbn [app Nat.add]. intros [b|] s1 t1.
    + intros (Hb & Hs1 & Hfail & Hpre). mstep. rewrite app_nil_r. subst b. auto.
    + intros (Hs1 & Ht1). mstep. destruct r. mstep.
      rewrite firstn_all in Ht1. split; [congruence|].
      rewrite forallb_app, steps_app, Ht1. unfold entry.
      rewrite setup_entries_ok, steps_setup_entries. cbn.
      rewrite app_nil_r. auto.
Qed.

Lemma enable_runs s :
  ports_ok (stim s) ->
  boards_ok (m_channels (stim s)) ->
  runs enable s (fun b st t =>
    m_enabled st = b /\ same_setup st (stim s) /\
    prefix_of (steps t) (plan (stim s)) /\
    if b then forallb resp_ok t = true /\ steps t = plan (stim s)
    else exists tail,
           fails_at t (tail ++ disable_trace (stim s)) /\
           at_most_one_error_line tail).
Proof.
  intros [Hn Hports] Hboards. unfold enable. mstep.
  set (n := m_num_ports (stim s)) in *.
  pose (J := fun (b : bool) st t =>
               b = false /\ m_enabled st = false /\ same_setup st (stim s) /\
               prefix_of (steps t) (plan (stim s)) /\
               exists tail,
                 fails_at t (tail ++ disable_trace (stim s)) /\
                 at_most_one_error_line tail).
  (* what remains to do once something has failed: disable and report *)
  assert (Hgive_up : forall s1 t1 tail (k : bool -> M (option bool)),
            k = (fun e => ret (Some e)) ->
            same_setup (stim s1) (stim s) ->
            m_enabled (stim s1) = m_enabled (stim s) ->
            fails_at t1 tail -> at_most_one_error_line tail ->
            prefix_of (steps t1) (plan (stim s)) ->
            runs (disable ;; e <- gets m_enabled ;; k e) s1
              (fun r st t2 =>
                 match r with
                 | None => False
                 | Some b => J b st (t1 ++ t2)
                 end)).
  { intros s1 t1 tail k -> Hsame He Hfail Htail Hpre.
    eapply runs_bind.
    - apply disable_runs. intros _. destruct Hsame as (-> & _). exact Hn.
    - cbv beta. intros [] s2 t2 (Hs2 & Ht2). mstep. mstep.
      rewrite app_nil_r, Hs2, Ht2. unfold J. cbn [m_enabled set_m_enabled].
      split; [reflexivity|]. split; [reflexivity|]. split.
      { eapply same_setup_trans; [apply same_setup_enabled | exact Hsame]. }
      rewrite steps_app, steps_disable_trace, app_nil_r.
      split; [exact Hpre|]. exists tail.
      rewrite (@disable_trace_ext (stim s1) (stim s)) by (destruct Hsame; auto).
      split; [apply fails_at_append; exact Hfail | exact Htail]. }
  eapply runs_bind.
  - apply runs_for_ret with (t0 := [])
      (I := fun i st t =>
              same_setup st (stim s) /\ m_enabled st = m_enabled (stim s) /\
              forallb resp_ok t = true /\ steps t = port_steps i)
      (J := J).
    + split; [apply same_setup_refl|]. auto.
    + intros i s1 t1 Hi (Hsame1 & He1 & Hok1 & Hsteps1).
      mstep. mstep.
      destruct (@nth_error_in_range _ (m_com_ports (stim s1)) i) as (port & Hport).
      { destruct Hsame1 as (_ & -> & _). lia. }
      eapply runs_vec_at; [exact Hport|].
      assert (Hplan : exists rest,
                plan (stim s) = port_steps i ++ [Open i; Configure i] ++ rest).
      { destruct (@port_steps_prefix (S i) n) as (rest & Hrest); [lia|].
        exists (rest ++ map Setup (m_channels (stim s))).
        unfold plan. fold n. rewrite Hrest, port_steps_S, <- !app_assoc.
        reflexivity. }
      destruct Hplan as (rest & Hplan).
      eapply runs_bind; [apply open_port_runs|].
      cbv beta. intros ok s2 t2 (Hs2 & Hsteps2 & Hres2).
      destruct ok; cbn [negb].
      * mstep. eapply runs_bind; [apply configure_port_runs|].
        cbv beta. intros ok s3 t3 (Hsame3 & He3 & Hsteps3 & Hres3).
        destruct ok; cbn [negb].
        -- mstep. rewrite app_nil_r.
           split; [eapply same_setup_trans; [exact Hsame3 | congruence]|].
           split; [congruence|].
           rewrite !forallb_app, !steps_app, Hok1, Hres2, Hres3.
           rewrite Hsteps1, Hsteps2, Hsteps3, port_steps_S.
           split; reflexivity.
        -- destruct Hres3 as (text & Hfail3).
           eapply runs_weaken.
           ++ apply (Hgive_up s3 (t1 ++ t2 ++ t3) [mkEntry (LOG Error text) tt]).
              ** reflexivity.
              ** eapply same_setup_trans; [exact Hsame3 | congruence].
              ** congruence.
              ** apply fails_at_prepend; [exact Hok1|].
                 apply fails_at_prepend; [exact Hres2 | exact Hfail3].
              ** right. eauto.
              ** rewrite !steps_app, Hsteps1, Hsteps2, Hsteps3, Hplan.
                 apply prefix_of_app. apply prefix_of_app_l.
           ++ cbv beta. intros [b|] st t; [|contradiction].
              rewrite <- !app_assoc. auto.
      * destruct Hres2 as (text & Hfail2).
        eapply runs_weaken.
        -- apply (Hgive_up s2 (t1 ++ t2) [mkEntry (LOG Error text) tt]).
           ++ reflexivity.
           ++ congruence.
           ++ congruence.
           ++ apply fails_at_prepend; [exact Hok1 | exact Hfail2].
           ++ right. eauto.
           ++ rewrite !steps_app, Hsteps1, Hsteps2, Hplan.
              apply prefix_of_app. exists (Configure i :: rest). reflexivity.
        -- cbv beta. intros [b|] st t; [|contradiction].
           rewrite <- !app_assoc. auto.
  - cbv beta. cbn [app Nat.add]. intros [b|] s1 t1.
    + intros (Hb & He1 & Hsame1 & Hpre1 & Htail1). mstep. rewrite app_nil_r.
      subst b. auto.
    + intros (Hsame1 & He1 & Hok1 & Hsteps1).
      eapply runs_bind.
      * apply initialize_board_runs.
        destruct Hsame1 as (_ & _ & -> & _). exact Hboards.
      * cbv beta. intros ok s2 t2 (Hs2 & Hres2).
        assert (Hch : m_channels (stim s1) = m_channels (stim s))
          by (destruct Hsame1 as (_ & _ & H & _); exact H).
        rewrite Hch in Hres2.
        destruct ok; cbn [negb].
        -- destruct Hres2 as (Hok2 & Hsteps2).
           mstep. mstep. rewrite Hst, Hs2, app_nil_r. cbn [m_enabled set_m_enabled].
           split; [reflexivity|].
           split; [eapply same_setup_trans; [apply same_setup_enabled | exact Hsame1]|].
           rewrite forallb_app, steps_app, Hok1, Hok2, Hsteps1, Hsteps2.
           unfold plan. fold n. split; [apply prefix_of_refl | auto].
        -- destruct Hres2 as (Hfail2 & Hpre2).
           eapply runs_bind.
           ++ apply disable_runs. intros _. rewrite Hs2.
              destruct Hsame1 as (-> & _). exact Hn.
           ++ cbv beta. intros [] s3 t3 (Hs3 & Ht3). mstep.
              rewrite app_nil_r, Hs3, Ht3, Hs2. cbn [m_enabled set_m_enabled].
              split; [reflexivity|].
              split; [eapply same_setup_trans; [apply same_setup_enabled | exact Hsame1]|].
              rewrite !steps_app, steps_disable_trace, app_nil_r, Hsteps1.
              split; [unfold plan; fold n; apply prefix_of_app; exact Hpre2|].
              exists []. split; [|left; reflexivity].
              rewrite (@disable_trace_ext (stim s1) (stim s))
                by (destruct Hsame1; auto).
              rewrite app_assoc. cbn [app].
              apply (@fails_at_append (t1 ++ t2) [] (disable_trace (stim s))).
              apply fails_at_prepend; [exact Hok1 | exact Hfail2].
Qed.




(** *** The constructor *)

Lemma bind_gets_eq A B (f : Stimulator -> A) (k : A -> M B) s :
  bind (gets f) k s = k (f (stim s)) s.
Proof. reflexivity. Qed.





(** *** The tick length *)

Lemma whole_frequencies_checked : forallb whole_frequency_ok (seq 1 2000) = true.
Proof. vm_compute. reflexivity. Qed.

Lemma tick_duration_whole (k : Z) :
  (1 <= k <= 2000)%Z -> tick_duration (double_of_Z k) = Some (1000 / k)%Z.
Proof.
  intros Hk. pose proof whole_frequencies_checked as H.
  rewrite forallb_forall in H. specialize (H (Z.to_nat k)).
  rewrite in_seq in H. unfold whole_frequency_ok in H.
  rewrite Z2Nat.id in H by lia.
  destruct (tick_duration (double_of_Z k)) as [d|].
  - f_equal. apply Z.eqb_eq. apply H. lia.
  - assert (false = true) by (apply H; lia). discriminate.
Qed.

Lemma tick_duration_40 : tick_duration (double_of_Z 40) = Some 25%Z.
Proof. vm_compute. reflexivity. Qed.

Lemma tick_duration_nonpositive (f : double) :
  double_le f (double_of_Z 0) = true -> tick_duration f = Some 50%Z.
Proof.
  unfold tick_duration, double_gt, double_le.
  change (double_of_Z 0) with (S754_zero false).
  destruct f as [sign|sign| |sign m e]; cbn; try discriminate; try reflexivity;
    destruct sign; cbn; try discriminate; reflexivity.
Qed.

(** C5, as amended.  Let [duration] be the tick length [create_scheduler]
    computes for [frequency_].  For a positive frequency it is the double
    product (1.0 / frequency_) * 1000 with the fraction dropped; for every
    whole number of hertz from 1 to 2000 that is 1000 / frequency_ rounded
    down, so 25 at 40 Hz; for a frequency that is zero or negative it is 50.
    On an enabled, non-virtual Stimulator each port's scheduler is then
    created with that tick length and the blocking read that follows
    decides: a valid frame makes the first byte of its payload the
    scheduler's id ([handshake_entries]), an invalid one disables the
    Stimulator. *)
Theorem create_scheduler_tick_and_id s (sync_msg : Z) (frequency_ : double)
    (duration : Z) :
  m_num_ports (stim s) <= 2 ->
  m_enabled (stim s) = true ->
  m_is_virtual (stim s) = false ->
  tick_duration frequency_ = Some duration ->
  acks_carry_id ->
  (double_gt frequency_ (double_of_Z 0) = true ->
     to_unsigned_int
       (double_mul (double_div (double_of_Z 1) frequency_) (double_of_Z 1000))
     = Some duration) /\
  (forall k : Z, (1 <= k <= 2000)%Z -> frequency_ = double_of_Z k ->
     duration = (1000 / k)%Z) /\
  (frequency_ = double_of_Z 40 -> duration = 25%Z) /\
  (double_le frequency_ (double_of_Z 0) = true -> duration = 50%Z) /\
  exists b s' rounds,
    create_scheduler sync_msg frequency_ s = Ret b s' /\
    List.length rounds <= m_num_ports (stim s) /\
    trace s' = trace s ++ handshake_entries (stim s) sync_msg duration 0 rounds /\
    (all_valid rounds = true ->
       List.length rounds = m_num_ports (stim s) /\ stim s' = stim s) /\
    (all_valid rounds = false -> m_enabled (stim s') = false).
Proof.
  intros Hn He Hvirt Hd Hacks.
  split; [|split; [|split; [|split]]].
  - intros Hpos. unfold tick_duration in Hd. rewrite Hpos in Hd. exact Hd.
  - intros k Hk ->. rewrite (tick_duration_whole Hk) in Hd. congruence.
  - intros ->. rewrite tick_duration_40 in Hd. congruence.
  - intros Hle. rewrite (tick_duration_nonpositive _ Hle) in Hd. congruence.
  - destruct (@create_scheduler_runs s sync_msg frequency_ duration
                Hn He Hvirt Hd Hacks)
      as (b & s' & t & E & T & _ & rounds & Hlen & Ht & Hres).
    exists b, s', rounds. split; [exact E|]. split; [exact Hlen|].
    split; [rewrite T, Ht; reflexivity|].
    split; intros Hall; rewrite Hall in Hres.
    + exact Hres.
    + rewrite Hres. reflexivity.
Qed.

(** * Further properties of the class *)

(** *** Operations on a Stimulator that is not enabled *)

Lemma bind_ret_eq A B (a : A) (k : A -> M B) s : bind (ret a) k s = k a s.
Proof. reflexivity. Qed.

Lemma just_logs_then A (a : A) (text : string) s :
  just_logs (call (LOG Error text) ;; ret a) s a text.
Proof.
  unfold just_logs, bind, call, ret.
  destruct (handle (LOG Error text) (world s)) as [[] w].
  eexists. repeat split.
Qed.

Lemma just_logs_call (text : string) s :
  just_logs (call (LOG Error text)) s tt text.
Proof.
  unfold just_logs, call.
  destruct (handle (LOG Error text) (world s)) as [[] w].
  eexists. repeat split.
Qed.

(** X1.  On a Stimulator that is not enabled, [update], [create_scheduler],
    [add_event] and [add_events] return false and [set_amp] and [write_pw]
    return, each leaving the object as it is and doing one thing to the
    outside: writing its error line.  No scheduler and no serial handle is
    touched, and [add_events] writes the line once, however many channels it
    was given. *)
Theorem disabled_operations_only_log s (channel_ : Channel)
    (channels_ : list Channel) (event_type value sync_msg : Z)
    (frequency_ : double) (duration : Z) :
  m_enabled (stim s) = false ->
  tick_duration frequency_ = Some duration ->
  just_logs update s false
    "Stimulator has not yet been enabled. Not updating" /\
  just_logs (create_scheduler sync_msg frequency_) s false
    "Stimulator has not yet been enabled. Not creating scheduler" /\
  just_logs (add_event channel_ event_type) s false
    "Stimulator has not yet been enabled. Not adding event to scheduler" /\
  just_logs (add_events channels_ event_type) s false
    "Stimulator has not yet been enabled. Not adding event to scheduler" /\
  just_logs (set_amp channel_ value) s tt
    "Stimulator has not yet been enabled. Not writing amplitude" /\
  just_logs (write_pw channel_ value) s tt
    "Stimulator has not yet been enabled. Not writing pulsewidth".
Proof.
  intros He Hd.
  assert (Hstep : forall B (k1 k2 : M B) (a : B) text,
            just_logs k2 s a text ->
            just_logs (e <- is_enabled ;; if e then k1 else k2) s a text).
  { intros B k1 k2 a text H. unfold just_logs, is_enabled in *.
    rewrite bind_gets_eq, He. exact H. }
  repeat split.
  - apply Hstep. apply just_logs_then.
  - unfold create_scheduler, just_logs. rewrite Hd, bind_ret_eq.
    apply Hstep. apply just_logs_then.
  - apply Hstep. apply just_logs_then.
  - apply Hstep. apply just_logs_then.
  - apply Hstep. apply just_logs_call.
  - apply Hstep. apply just_logs_call.
Qed.

(** *** [halt_scheduler] *)

(** X2.  [halt_scheduler] asks every scheduler to halt, once and in port
    order, whatever the earlier ones answered, and returns the conjunction of
    the answers.  It does not look at the enabled flag and leaves the object
    as it is. *)
Theorem halt_scheduler_asks_every_port s :
  m_num_ports (stim s) <= 2 ->
  exists answers s',
    halt_scheduler s = Ret (all_true answers) s' /\
    stim s' = stim s /\
    List.length answers = m_num_ports (stim s) /\
    trace s' = trace s ++ halt_entries answers.
Proof.
  intros Hn.
  assert (H : runs halt_scheduler s (fun b st t =>
            st = stim s /\
            exists answers, List.length answers = m_num_ports (stim s) /\
                            t = halt_entries answers /\ b = all_true answers)).
  { unfold halt_scheduler. mstep.
    apply (@ask_every_port_runs Scheduler_halt_scheduler
             (fun i r => mkEntry (Scheduler_halt_scheduler i) r)
             (fun _ b => b) s Hn).
    reflexivity. }
  destruct H as (b & s' & t & E & T & Hs & answers & Hlen & Ht & Hb).
  subst b t. exists answers, s'. auto.
Qed.

(** *** The board number of a channel *)

Lemma slot_out_of_range B (i : nat) (k : nat -> M B) s :
  2 <= i -> bind (slot_at i) k s = Undefined.
Proof.
  intros Hi. unfold bind, slot_at.
  replace (i <? 2) with false; [reflexivity|].
  symmetry. apply Nat.ltb_ge. exact Hi.
Qed.

(** X3.  [set_amp], [write_pw] and [add_event] use the board number of the
    channel as an index into the two schedulers without checking it.  On an
    enabled Stimulator a board number below 2 sends the request to exactly
    that scheduler; any other board number indexes past the end, which is
    undefined behaviour. *)
Theorem board_number_selects_the_scheduler s (channel_ : Channel)
    (value event_type : Z) :
  m_enabled (stim s) = true ->
  (get_board_num channel_ < 2 ->
     exists s1 s2 b s3,
       set_amp channel_ value s = Ret tt s1 /\
       trace s1 = trace s ++ [mkEntry (Scheduler_set_amp (get_board_num channel_)
                                         channel_ value) tt] /\
       write_pw channel_ value s = Ret tt s2 /\
       trace s2 = trace s ++ [mkEntry (Scheduler_write_pw (get_board_num channel_)
                                         channel_ value) tt] /\
       add_event channel_ event_type s = Ret b s3 /\
       trace s3 = trace s ++ [added (stim s) event_type b channel_]) /\
  (2 <= get_board_num channel_ ->
     set_amp channel_ value s = Undefined /\
     write_pw channel_ value s = Undefined /\
     add_event channel_ event_type s = Undefined).
Proof.
  intros He. split; intros Hb.
  - destruct (set_amp_runs s channel_ value Hb) as ([] & s1 & t1 & E1 & T1 & _ & Ht1).
    destruct (write_pw_runs s channel_ value Hb) as ([] & s2 & t2 & E2 & T2 & _ & Ht2).
    destruct (add_event_runs s channel_ event_type He Hb)
      as (b & s3 & t3 & E3 & T3 & _ & Ht3).
    unfold set_amp_entry in Ht1. unfold write_pw_entry in Ht2.
    rewrite He in Ht1, Ht2. subst t1 t2 t3.
    exists s1, s2, b, s3. auto 10.
  - unfold set_amp, write_pw, add_event, is_enabled.
    rewrite !bind_gets_eq, He. repeat split; apply slot_out_of_range; exact Hb.
Qed.

(** *** [create_scheduler] *)

(** X4.  On an enabled virtual Stimulator [create_scheduler] creates the
    scheduler of every port, in port order and with the computed tick
    length, and does nothing else: no frame is read, no id is set, and the
    schedulers' own answers are not looked at -- the Stimulator stays as it
    is even when one of them fails. *)
Theorem create_scheduler_virtual s (sync_msg : Z) (frequency_ : double)
    (duration : Z) :
  m_num_ports (stim s) <= 2 ->
  m_enabled (stim s) = true ->
  m_is_virtual (stim s) = true ->
  tick_duration frequency_ = Some duration ->
  exists answers b s',
    create_scheduler sync_msg frequency_ s = Ret b s' /\
    stim s' = stim s /\
    List.length answers = m_num_ports (stim s) /\
    trace s' = trace s ++ create_entries (stim s) sync_msg duration answers.
Proof.
  intros Hn He Hvirt Hd.
  assert (H : runs (create_scheduler sync_msg frequency_) s (fun b st t =>
            st = stim s /\
            exists answers, List.length answers = m_num_ports (stim s) /\
                            t = create_entries (stim s) sync_msg duration answers)).
  { unfold create_scheduler. rewrite Hd. apply runs_ret_bind.
    mstep. rewrite He. cbv zeta. mstep. eapply runs_bind.
    - apply runs_for_ret with (t0 := [])
        (I := fun i st t =>
                st = stim s /\
                exists answers, List.length answers = i /\
                  t = create_entries (stim s) sync_msg duration answers)
        (J := fun (_ : bool) (_ : Stimulator) (_ : list Entry) => False).
      + split; [reflexivity|]. exists []. auto.
      + intros i s1 t1 Hi (Hs1 & answers & Hlen & Ht1).
        mstep. mstep. mstep. rewrite Hs1. mstep. mstep.
        rewrite Hst, Hs1, Hvirt. cbn [negb]. mstep.
        split; [congruence|]. exists (answers ++ [r]).
        split; [rewrite length_app; cbn; lia|].
        subst i t1. unfold create_entries. rewrite numbered_snoc.
        reflexivity.
    - cbv beta. cbn [app Nat.add]. intros [b|] s1 t1; [intros []|].
      intros (Hs1 & answers & Hlen & Ht1). mstep.
      split; [exact Hs1|]. exists answers. rewrite app_nil_r. auto. }
  destruct H as (b & s' & t & E & T & Hs & answers & Hlen & Ht).
  subst t. exists answers, b, s'. auto.
Qed.

(** *** [update_max_amp] and [update_max_pw] *)

Lemma vec_store_at A (l : list A) (x : A) :
  forall i a, nth_error l i = Some a ->
  vec_store l i x = Some (firstn i l ++ x :: skipn (S i) l).
Proof.
  induction l as [|b l IH]; intros [|i] a H; cbn in H; try discriminate.
  - reflexivity.
  - cbn [vec_store]. rewrite (IH i a H). reflexivity.
Qed.

Lemma update_first_skip (name : string) (f : Channel -> Channel)
    (l1 l2 : list Channel) :
  forallb (other_name name) l1 = true ->
  update_first name f (l1 ++ l2)
  = match update_first name f l2 with
    | Some l2' => Some (l1 ++ l2')
    | None => None
    end.
Proof.
  induction l1 as [|c l1 IH]; intros H; cbn [app].
  - destruct (update_first name f l2); reflexivity.
  - cbn [forallb] in H. apply andb_true_iff in H. destruct H as [Hc Hl1].
    unfold other_name in Hc. apply negb_true_iff in Hc.
    cbn [update_first]. rewrite Hc, (IH Hl1).
    destruct (update_first name f l2); reflexivity.
Qed.

Lemma update_first_none (name : string) (f : Channel -> Channel)
    (l : list Channel) :
  forallb (other_name name) l = true -> update_first name f l = None.
Proof.
  intros H. rewrite <- (app_nil_r l), (update_first_skip _ _ _ [] H). reflexivity.
Qed.

Lemma store_channel_runs (i : nat) (c : Channel) s (l' : list Channel) :
  vec_store (m_channels (stim s)) i c = Some l' ->
  runs (store_channel i c) s (fun _ st t =>
    st = set_m_channels l' (stim s) /\ t = []).
Proof.
  intros H. unfold store_channel. mstep. rewrite H. mstep. auto.
Qed.

Lemma update_ceiling_runs (f : Channel -> Channel) (channel_ : Channel) s :
  runs (update_ceiling f channel_) s (fun _ st t =>
    match update_first (get_channel_name channel_) f (m_channels (stim s)) with
    | Some l => st = set_m_channels l (stim s) /\ t = []
    | None => st = stim s /\ t = [mkEntry (LOG Error channel_not_found_text) tt]
    end).
Proof.
  unfold update_ceiling. mstep.
  set (chs := m_channels (stim s)).
  set (name := get_channel_name channel_).
  eapply runs_bind.
  - apply runs_for_ret with (t0 := [])
      (I := fun i st t =>
              st = stim s /\ t = [] /\
              forallb (other_name name) (firstn i chs) = true)
      (J := fun (_ : unit) st t =>
              t = [] /\
              exists l, update_first name f chs = Some l /\
                        st = set_m_channels l (stim s)).
    + auto.
    + intros i s1 t1 Hi (Hs1 & Ht1 & Hnone).
      destruct (@nth_error_in_range _ chs i) as (ch & Hch); [lia|].
      mstep. rewrite Hs1. fold chs.
      eapply runs_vec_at; [exact Hch|].
      destruct (String.eqb (get_channel_name ch) name) eqn:Hname.
      * eapply runs_bind.
        -- apply (@store_channel_runs i (f ch) s1
                    (firstn i chs ++ f ch :: skipn (S i) chs)).
           rewrite Hs1. fold chs. apply (vec_store_at _ _ _ Hch).
        -- cbv beta. intros [] s2 t2 (Hs2 & Ht2). mstep.
           split; [subst t1 t2; reflexivity|].
           exists (firstn i chs ++ f ch :: skipn (S i) chs). split.
           ++ rewrite (nth_error_split_at _ _ Hch) at 1.
              rewrite (update_first_skip _ _ _ _ Hnone).
              cbn [update_first]. rewrite Hname. reflexivity.
           ++ rewrite Hs2, Hs1. reflexivity.
      * mstep. split; [exact Hs1|]. split; [subst t1; reflexivity|].
        rewrite (firstn_snoc _ _ Hch), forallb_app, Hnone. cbn.
        unfold other_name. rewrite Hname. reflexivity.
  - cbv beta. cbn [app Nat.add]. intros [[]|] s1 t1.
    + intros (Ht1 & l & Hl & Hs1). mstep. fold chs name. rewrite Hl.
      rewrite app_nil_r. auto.
    + intros (Hs1 & Ht1 & Hnone). rewrite firstn_all in Hnone. mstep.
      fold chs name. rewrite (update_first_none _ _ _ Hnone).
      destruct r. subst t1. split; [congruence | reflexivity].
Qed.

Lemma other_names_forallb (name : string) (l : list Channel) :
  (forall c, In c l -> get_channel_name c <> name) ->
  forallb (other_name name) l = true.
Proof.
  intros H. apply forallb_forall. intros c Hc. unfold other_name.
  apply negb_true_iff. apply String.eqb_neq. apply H. exact Hc.
Qed.

Lemma update_ceiling_first_match (f : Channel -> Channel) (channel_ : Channel) s :
  (forall before ch after,
     m_channels (stim s) = before ++ ch :: after ->
     (forall c, In c before -> get_channel_name c <> get_channel_name channel_) ->
     get_channel_name ch = get_channel_name channel_ ->
     exists s',
       update_ceiling f channel_ s = Ret tt s' /\
       trace s' = trace s /\
       stim s' = set_m_channels (before ++ f ch :: after) (stim s)) /\
  ((forall c, In c (m_channels (stim s)) ->
      get_channel_name c <> get_channel_name channel_) ->
   just_logs (update_ceiling f channel_) s tt channel_not_found_text).
Proof.
  destruct (update_ceiling_runs f channel_ s) as ([] & s' & t & E & T & H).
  split.
  - intros before ch after Hsplit Hbefore Hch.
    rewrite Hsplit, (@update_first_skip _ _ _ _ (@other_names_forallb _ _ Hbefore)) in H.
    cbn [update_first] in H. apply String.eqb_eq in Hch. rewrite Hch in H.
    destruct H as [Hs Ht]. exists s'. rewrite T, Ht, app_nil_r. auto.
  - intros Hnone.
    rewrite (@update_first_none _ _ _ (@other_names_forallb _ _ Hnone)) in H.
    destruct H as [Hs Ht]. exists s'. rewrite T, Ht. auto.
Qed.

(** X5.  [update_max_amp] changes the maximum amplitude of the first channel
    of the Stimulator whose name is that of the channel it is given, and
    nothing else: the channels before and after it, the other members of the
    object (the snapshot's [max_amplitudes] among them) and the outside stay
    as they are.  When no channel has that name the object is unchanged and
    the error line is written.  The enabled flag is not consulted.
    [update_max_pw] does the same with the maximum pulse width. *)
Theorem update_max_changes_first_match s (channel_ : Channel) (value : Z) :
  (forall before ch after,
     m_channels (stim s) = before ++ ch :: after ->
     (forall c, In c before -> get_channel_name c <> get_channel_name channel_) ->
     get_channel_name ch = get_channel_name channel_ ->
     exists s1 s2,
       update_max_amp channel_ value s = Ret tt s1 /\
       trace s1 = trace s /\
       stim s1 = set_m_channels (before ++ set_max_amplitude value ch :: after)
                   (stim s) /\
       update_max_pw channel_ value s = Ret tt s2 /\
       trace s2 = trace s /\
       stim s2 = set_m_channels (before ++ set_max_pulse_width value ch :: after)
                   (stim s)) /\
  ((forall c, In c (m_channels (stim s)) ->
      get_channel_name c <> get_channel_name channel_) ->
   just_logs (update_max_amp channel_ value) s tt channel_not_found_text /\
   just_logs (update_max_pw channel_ value) s tt channel_not_found_text).
Proof.
  destruct (update_ceiling_first_match (set_max_amplitude value) channel_ s)
    as [Hamp Hamp_none].
  destruct (update_ceiling_first_match (set_max_pulse_width value) channel_ s)
    as [Hpw Hpw_none].
  split.
  - intros before ch after Hsplit Hbefore Hch.
    destruct (Hamp before ch after Hsplit Hbefore Hch) as (s1 & E1 & T1 & S1).
    destruct (Hpw before ch after Hsplit Hbefore Hch) as (s2 & E2 & T2 & S2).
    exists s1, s2. unfold update_max_amp, update_max_pw. auto 10.
  - intros Hnone. split; [apply Hamp_none | apply Hpw_none]; exact Hnone.
Qed.

Lemma update_ceiling_channels (f : Channel -> Channel) (channel_ : Channel) s :
  exists s',
    update_ceiling f channel_ s = Ret tt s' /\
    stim s' = set_m_channels
                (ceiling_set (get_channel_name channel_) f (m_channels (stim s)))
                (stim s).
Proof.
  destruct (update_ceiling_runs f channel_ s) as ([] & s' & t & E & T & H).
  exists s'. split; [exact E|]. unfold ceiling_set.
  destruct (update_first (get_channel_name channel_) f (m_channels (stim s))).
  - apply H.
  - destruct H as [-> _]. destruct (stim s). reflexivity.
Qed.

Lemma ceiling_set_cons (name : string) (f : Channel -> Channel) (c : Channel)
    (l : list Channel) :
  ceiling_set name f (c :: l)
  = if String.eqb (get_channel_name c) name then f c :: l
    else c :: ceiling_set name f l.
Proof.
  unfold ceiling_set. cbn [update_first].
  destruct (String.eqb (get_channel_name c) name); [reflexivity|].
  destruct (update_first name f l); reflexivity.
Qed.

Lemma ceiling_set_commute (n1 n2 : string) (f g : Channel -> Channel)
    (l : list Channel) :
  (forall c, get_channel_name (f c) = get_channel_name c) ->
  (forall c, get_channel_name (g c) = get_channel_name c) ->
  (forall c, f (g c) = g (f c)) ->
  ceiling_set n1 f (ceiling_set n2 g l) = ceiling_set n2 g (ceiling_set n1 f l).
Proof.
  intros Hf Hg Hfg. induction l as [|c l IH]; [reflexivity|].
  rewrite (ceiling_set_cons n2 g c l), (ceiling_set_cons n1 f c l).
  destruct (String.eqb (get_channel_name c) n2) eqn:E2;
    destruct (String.eqb (get_channel_name c) n1) eqn:E1;
    rewrite !ceiling_set_cons, ?Hf, ?Hg, ?E1, ?E2, ?Hfg, ?IH; reflexivity.
Qed.

Lemma ceiling_set_twice (name : string) (f g : Channel -> Channel)
    (l : list Channel) :
  (forall c, get_channel_name (f c) = get_channel_name c) ->
  ceiling_set name g (ceiling_set name f l)
  = ceiling_set name (fun c => g (f c)) l.
Proof.
  intros Hf. induction l as [|c l IH]; [reflexivity|].
  rewrite (ceiling_set_cons name f c l), (ceiling_set_cons name (fun c => g (f c)) c l).
  destruct (String.eqb (get_channel_name c) name) eqn:E;
    rewrite ceiling_set_cons, ?Hf, E, ?IH; reflexivity.
Qed.

(** The two ceilings are independent: [update_max_amp] for one channel
    followed by [update_max_pw] for another (or the same) channel leaves the
    same object as the two calls in the other order.  Both calls always
    return. *)
Lemma update_max_amp_pw_commute s (c1 c2 : Channel) (amp pw : Z) :
  exists s1 s2 s1' s2',
    update_max_amp c1 amp s = Ret tt s1 /\
    update_max_pw c2 pw s1 = Ret tt s2 /\
    update_max_pw c2 pw s = Ret tt s1' /\
    update_max_amp c1 amp s1' = Ret tt s2' /\
    stim s2 = stim s2'.
Proof.
  unfold update_max_amp, update_max_pw.
  destruct (update_ceiling_channels (set_max_amplitude amp) c1 s) as (s1 & E1 & S1).
  destruct (update_ceiling_channels (set_max_pulse_width pw) c2 s1) as (s2 & E2 & S2).
  destruct (update_ceiling_channels (set_max_pulse_width pw) c2 s) as (s1' & E1' & S1').
  destruct (update_ceiling_channels (set_max_amplitude amp) c1 s1') as (s2' & E2' & S2').
  exists s1, s2, s1', s2'. repeat split; try assumption.
  rewrite S2, S1, S2', S1'. cbn [m_channels set_m_channels].
  unfold set_m_channels. cbn. f_equal.
  symmetry. apply ceiling_set_commute; reflexivity.
Qed.

Lemma channel_named_ceiling_set (name other : string) (f : Channel -> Channel)
    (l : list Channel) :
  (forall c, get_channel_name (f c) = get_channel_name c) ->
  channel_named other (ceiling_set name f l)
  = if String.eqb other name then option_map f (channel_named name l)
    else channel_named other l.
Proof.
  intros Hf. unfold channel_named.
  induction l as [|c l IH].
  - cbn. destruct (String.eqb other name); reflexivity.
  - rewrite ceiling_set_cons.
    destruct (String.eqb (get_channel_name c) name) eqn:Ec.
    + apply String.eqb_eq in Ec. cbn [find]. rewrite Hf, Ec.
      destruct (String.eqb other name) eqn:Eo.
      * apply String.eqb_eq in Eo. subst other.
        rewrite String.eqb_refl. reflexivity.
      * rewrite String.eqb_sym, Eo. reflexivity.
    + cbn [find]. rewrite IH.
      destruct (String.eqb other name) eqn:Eo.
      * apply String.eqb_eq in Eo. subst other. rewrite Ec. reflexivity.
      * reflexivity.
Qed.

(** What [update_max_amp] writes can be read back: afterwards the first
    channel with the given name is the one that was first before, with the
    new maximum amplitude and everything else as it was; looking up any other
    name finds what it found before.  A second [update_max_amp] for the same
    name overwrites the first: the object is the one the second call alone
    would have left. *)
Lemma update_max_amp_read_back s (channel_ : Channel) (amp amp' : Z) :
  exists s1 s2 s2',
    update_max_amp channel_ amp s = Ret tt s1 /\
    channel_named (get_channel_name channel_) (m_channels (stim s1))
    = option_map (set_max_amplitude amp)
        (channel_named (get_channel_name channel_) (m_channels (stim s))) /\
    (forall other, other <> get_channel_name channel_ ->
       channel_named other (m_channels (stim s1))
       = channel_named other (m_channels (stim s))) /\
    update_max_amp channel_ amp' s1 = Ret tt s2 /\
    update_max_amp channel_ amp' s = Ret tt s2' /\
    stim s2 = stim s2'.
Proof.
  unfold update_max_amp.
  destruct (update_ceiling_channels (set_max_amplitude amp) channel_ s) as (s1 & E1 & S1).
  destruct (update_ceiling_channels (set_max_amplitude amp') channel_ s1) as (s2 & E2 & S2).
  destruct (update_ceiling_channels (set_max_amplitude amp') channel_ s) as (s2' & E2' & S2').
  exists s1, s2, s2'. split; [exact E1|]. rewrite S1. cbn [m_channels set_m_channels].
  split; [|split; [|split; [exact E2|split; [exact E2'|]]]].
  - rewrite channel_named_ceiling_set by reflexivity.
    rewrite String.eqb_refl. reflexivity.
  - intros other Hother. rewrite channel_named_ceiling_set by reflexivity.
    apply String.eqb_neq in Hother. rewrite Hother. reflexivity.
  - rewrite S2, S2', S1. unfold set_m_channels. cbn. f_equal.
    rewrite ceiling_set_twice by reflexivity. reflexivity.
Qed.

(** *** What [enable] touches *)








(** X8.  A successful [enable] followed by [disable] closes what was
    opened: [disable] disables the scheduler of every port, closes the handle
    of every port -- the ports the [enable] went through -- writes its log
    line and clears the flag. *)
Theorem enable_then_disable_closes_every_port s s1 :
  ports_ok (stim s) ->
  boards_ok (m_channels (stim s)) ->
  enable s = Ret true s1 ->
  exists t s2,
    trace s1 = trace s ++ t /\
    steps t = plan (stim s) /\
    disable s1 = Ret tt s2 /\
    m_enabled (stim s2) = false /\
    trace s2 = trace s1
               ++ map (fun i => mkEntry (Scheduler_disable i) tt)
                    (seq 0 (m_num_ports (stim s)))
               ++ map (fun i => mkEntry (CloseHandle i) tt)
                    (seq 0 (m_num_ports (stim s)))
               ++ [mkEntry (LOG Info "Stimulator Disabled") tt].
Proof.
  intros Hports Hboards Henable.
  destruct (enable_runs s Hports Hboards)
    as (b & s1' & t & E & T & He & Hsame & _ & Hres).
  rewrite Henable in E. injection E as <- <-.
  destruct Hres as (_ & Hsteps).
  assert (Hn : m_num_ports (stim s1) = m_num_ports (stim s))
    by (destruct Hsame as (H & _); exact H).
  destruct (@disable_runs s1) as ([] & s2 & t2 & E2 & T2 & Hs2 & Ht2).
  { intros _. rewrite Hn. apply Hports. }
  exists t, s2. split; [exact T|]. split; [exact Hsteps|].
  split; [exact E2|]. split; [rewrite Hs2; reflexivity|].
  rewrite T2, Ht2. unfold disable_trace. rewrite He, Hn. reflexivity.
Qed.

(** *** The bounds of the snapshot block *)

Lemma vec_store_none A (v : list A) (x : A) :
  forall i, List.length v <= i -> vec_store v i x = None.
Proof.
  induction v as [|a v IH]; intros i Hi; [reflexivity|].
  cbn in Hi. destruct i as [|i]; [lia|]. cbn. rewrite IH by lia. reflexivity.
Qed.

Lemma store_none (field : Stimulator -> list Z)
    (set : list Z -> Stimulator -> Stimulator) s (k : nat) (v : Z) :
  List.length (field (stim s)) <= k -> store field set k v s = Undefined.
Proof.
  intros Hk. unfold store, bind, gets. rewrite (vec_store_none _ _ Hk).
  reflexivity.
Qed.

Lemma forallb_false_witness A (f : A -> bool) (l : list A) :
  forallb f l = false -> exists a, In a l /\ f a = false.
Proof.
  induction l as [|a l IH]; cbn; [discriminate|].
  destruct (f a) eqn:Ea; cbn.
  - intros H. destruct (IH H) as (b & Hb & Hfb). exists b. auto.
  - intros _. exists a. auto.
Qed.

Lemma snapshot_in_range_entries x (w : World) :
  snapshot_in_range x w
  = forallb (fun j =>
      forallb (snapshot_entry_in_range x w j)
        (seq 0 (Scheduler_get_num_events j w)))
      (seq 0 (m_num_ports x)).
Proof. reflexivity. Qed.

Lemma snapshot_entry_in_range_ext x y (w : World) (j i : nat) :
  snapshot_only x y ->
  snapshot_entry_in_range x w j i = snapshot_entry_in_range y w j i.
Proof.
  intros (_ & _ & La & Lp & Lma & Lmp). unfold snapshot_entry_in_range.
  rewrite La, Lp, Lma, Lmp. reflexivity.
Qed.

Lemma refresh_snapshot_entry_out_of_range s (j i : nat) :
  j < 2 ->
  snapshot_entry_in_range (stim s) (world s) j i = false ->
  refresh_snapshot_entry j i s = Undefined.
Proof.
  intros Hj Hbad. unfold snapshot_entry_in_range in Hbad.
  unfold refresh_snapshot_entry, bind, slot_at, observe, vec_at, ret.
  apply Nat.ltb_lt in Hj. rewrite Hj. cbv beta iota zeta.
  destruct (nth_error (Scheduler_get_events j (world s)) i) as [ev|];
    [|reflexivity].
  cbv zeta in Hbad. cbv beta iota.
  set (k := get_channel_num (get_channel ev)) in *.
  destruct (k <? List.length (amplitudes (stim s))) eqn:Ha.
  2:{ apply Nat.ltb_ge in Ha. rewrite store_none by exact Ha. reflexivity. }
  apply Nat.ltb_lt in Ha.
  destruct (@store_some amplitudes set_amplitudes s k
              (Scheduler_get_amp j (get_channel ev) (world s)) Ha)
    as (l1 & L1 & E1).
  rewrite E1. cbv beta iota. cbn [world].
  destruct (k <? List.length (pulsewidths (stim s))) eqn:Hp.
  2:{ apply Nat.ltb_ge in Hp. rewrite store_none by (cbn; exact Hp). reflexivity. }
  apply Nat.ltb_lt in Hp.
  match goal with |- context [store pulsewidths set_pulsewidths k ?v ?st] =>
    destruct (@store_some pulsewidths set_pulsewidths st k v)
      as (l2 & L2 & E2); [cbn; lia|] end.
  rewrite E2. cbv beta iota.
  destruct (k <? List.length (max_amplitudes (stim s))) eqn:Hma.
  2:{ apply Nat.ltb_ge in Hma. rewrite store_none by (cbn; exact Hma). reflexivity. }
  apply Nat.ltb_lt in Hma.
  match goal with |- context [store max_amplitudes set_max_amplitudes k ?v ?st] =>
    destruct (@store_some max_amplitudes set_max_amplitudes st k v)
      as (l3 & L3 & E3); [cbn; lia|] end.
  rewrite E3. cbv beta iota.
  destruct (k <? List.length (max_pulsewidths (stim s))) eqn:Hmp.
  2:{ apply Nat.ltb_ge in Hmp. rewrite store_none by (cbn; exact Hmp). reflexivity. }
  discriminate Hbad.
Qed.

(** A loop that reaches an index at which its body is undefined is
    undefined, when an invariant carries the run up to that index. *)
Lemma for_acc_undefined_at A (body : nat -> A -> M A) (I : State -> Prop)
    (bad : nat) n :
  forall lo a s,
  I s -> lo <= bad < lo + n ->
  (forall i a1 s1 a2 s2, I s1 -> body i a1 s1 = Ret a2 s2 -> I s2) ->
  (forall a1 s1, I s1 -> body bad a1 s1 = Undefined) ->
  for_acc n lo body a s = Undefined.
Proof.
  induction n as [|n IH]; intros lo a s HI Hbad Hkeep Hundef; [lia|].
  cbn [for_acc]. unfold bind.
  destruct (body lo a s) as [a1 s1|] eqn:E; [|reflexivity].
  destruct (Nat.eq_dec bad lo) as [->|Hne].
  - rewrite (Hundef a s HI) in E. discriminate.
  - apply IH; [eapply Hkeep; eassumption | lia | exact Hkeep | exact Hundef].
Qed.

Lemma for_acc_preserves A (body : nat -> A -> M A) (I : State -> Prop) n :
  (forall i a1 s1 a2 s2, I s1 -> body i a1 s1 = Ret a2 s2 -> I s2) ->
  forall lo a s a' s',
  I s -> for_acc n lo body a s = Ret a' s' -> I s'.
Proof.
  intros Hkeep. induction n as [|n IH]; intros lo a s a' s' HI E.
  - cbn in E. injection E as _ <-. exact HI.
  - cbn [for_acc] in E. unfold bind in E.
    destruct (body lo a s) as [a1 s1|] eqn:E1; [|discriminate].
    eapply IH; [|exact E]. eapply Hkeep; eassumption.
Qed.

Lemma refresh_snapshot_entry_keeps s0 (j i : nat) s1 s2 :
  j < 2 ->
  snapshot_round_keeps s0 s1 ->
  refresh_snapshot_entry j i s1 = Ret tt s2 ->
  snapshot_round_keeps s0 s2.
Proof.
  intros Hj (Hw & Ht & Hs) E.
  destruct (snapshot_entry_in_range (stim s1) (world s1) j i) eqn:Hrange.
  - rewrite (snapshot_entry_in_range_ext _ _ _ Hs), Hw in Hrange.
    destruct (@refresh_snapshot_entry_ok s0 s1 j i Hj Hw Ht Hs Hrange)
      as (s' & E' & H').
    rewrite E in E'. injection E' as <-. exact H'.
  - rewrite (refresh_snapshot_entry_out_of_range _ _ Hj Hrange) in E.
    discriminate.
Qed.

Lemma refresh_snapshot_out_of_range s :
  m_num_ports (stim s) <= 2 ->
  snapshot_in_range (stim s) (world s) = false ->
  refresh_snapshot s = Undefined.
Proof.
  intros Hn Hbad. rewrite snapshot_in_range_entries in Hbad.
  destruct (forallb_false_witness _ _ Hbad) as (j & Hj & Hbadj).
  destruct (forallb_false_witness _ _ Hbadj) as (i & Hi & Hbadi).
  apply in_seq in Hj. apply in_seq in Hi.
  assert (Hrefl : snapshot_round_keeps s s).
  { unfold snapshot_round_keeps, snapshot_only. repeat split; reflexivity. }
  unfold refresh_snapshot. rewrite bind_gets_eq.
  apply for_acc_undefined_at with (I := snapshot_round_keeps s) (bad := j);
    [exact Hrefl | lia | |].
  - intros j' [] s1 [] s2 H1 E.
    unfold bind, slot_at, observe in E.
    destruct (j' <? 2) eqn:Hj'; [|discriminate]. cbn [ret] in E.
    apply Nat.ltb_lt in Hj'.
    eapply for_acc_preserves; [| exact H1 | exact E].
    intros i' [] s3 [] s4 H3 E3.
    eapply refresh_snapshot_entry_keeps; [exact Hj' | exact H3 | exact E3].
  - intros [] s1 (Hw1 & Ht1 & Hs1).
    unfold bind, slot_at, observe.
    replace (j <? 2) with true by (symmetry; apply Nat.ltb_lt; lia).
    cbn [ret]. rewrite Hw1.
    apply for_acc_undefined_at with (I := snapshot_round_keeps s) (bad := i);
      [unfold snapshot_round_keeps; auto | lia | |].
    + intros i' [] s3 [] s4 H3 E3.
      eapply refresh_snapshot_entry_keeps; [|exact H3 | exact E3]. lia.
    + intros [] s3 (Hw3 & Ht3 & Hs3).
      apply refresh_snapshot_entry_out_of_range; [lia|].
      rewrite (snapshot_entry_in_range_ext _ _ _ Hs3), Hw3. exact Hbadi.
Qed.

(** X9.  The snapshot block of [update] indexes the four snapshot vectors
    with channel numbers and never checks them.  For an enabled Stimulator,
    [update] is undefined exactly when some scheduler event below
    [get_num_events()] is missing or carries a channel number that is not an
    index into one of the four vectors; in every other case it returns. *)
Theorem update_undefined_iff_snapshot_out_of_range s :
  m_num_ports (stim s) <= 2 ->
  m_enabled (stim s) = true ->
  (update s = Undefined <-> snapshot_in_range (stim s) (world s) = false).
Proof.
  intros Hn He. split.
  - intros Hundef. destruct (snapshot_in_range (stim s) (world s)) eqn:Hrange;
      [|reflexivity].
    destruct (update_runs s Hn He Hrange) as (b & s' & t & E & _).
    rewrite E in Hundef. discriminate.
  - intros Hbad. unfold update, is_enabled. rewrite bind_gets_eq, He.
    unfold bind at 1. rewrite (refresh_snapshot_out_of_range s Hn Hbad).
    reflexivity.
Qed.

(** *** What [update] changes in the object *)






Lemma update_disabled_logs s :
  m_enabled (stim s) = false -> just_logs update s false not_updating_text.
Proof.
  intros He. unfold just_logs, update, is_enabled.
  rewrite bind_gets_eq, He. apply just_logs_then.
Qed.

Lemma begin_disabled_logs s :
  m_enabled (stim s) = false -> just_logs begin s false not_opened_text.
Proof.
  intros He. unfold just_logs, begin, is_enabled.
  rewrite bind_gets_eq, He. apply just_logs_then.
Qed.

(** X11.  A failed tick latches.  When [update] has returned false the
    Stimulator is disabled, and from then on [update] and [begin] return
    false without touching a scheduler or a port: each only writes its error
    line and leaves the object as it is. *)
Theorem failed_update_latches s s1 :
  m_num_ports (stim s) <= 2 ->
  m_enabled (stim s) = true ->
  update s = Ret false s1 ->
  m_enabled (stim s1) = false /\
  just_logs update s1 false not_updating_text /\
  just_logs begin s1 false not_opened_text.
Proof.
  intros Hn He E.
  assert (He1 : m_enabled (stim s1) = false).
  { destruct (snapshot_in_range (stim s) (world s)) eqn:Hrange.
    - destruct (update_runs s Hn He Hrange)
        as (b & s' & t & E' & _ & _ & _ & _ & _ & _ & He').
      rewrite E in E'. injection E' as <- <-. exact He'.
    - unfold update, is_enabled in E. rewrite bind_gets_eq, He in E.
      unfold bind at 1 in E.
      rewrite (refresh_snapshot_out_of_range s Hn Hrange) in E. discriminate. }
  split; [exact He1|].
  split; [apply update_disabled_logs | apply begin_disabled_logs]; exact He1.
Qed.

(** *** What the constructor builds *)





End Reasoning.

(** * Runs on the bench *)

(** The claim's formula for the tick length is not what the code computes for
    every positive frequency.  At the double nearest to 100/3 the quotient
    1000 / frequency is just below 30 and drops to 29, whether it is taken
    exactly or as one rounded double division; the code's product
    (1.0 / frequency) * 1000 rounds to 30. *)
Lemma tick_duration_is_not_the_quotient :
  valid_binary prec emax double_33_3 = true /\
  double_gt double_33_3 (double_of_Z 0) = true /\
  thousand_over double_33_3 = Some 29%Z /\
  thousand_over_rounded double_33_3 = Some 29%Z /\
  tick_duration double_33_3 = Some 30%Z /\
  tick_duration double_33_3 <> thousand_over double_33_3 /\
  tick_duration double_33_3 <> thousand_over_rounded double_33_3.
Proof.
  repeat split; try (vm_compute; reflexivity); vm_compute; discriminate.
Qed.

(** C1.  An enabled one-port Stimulator, a scheduler that is created without
    error and a valid acknowledgement carrying id 7: [create_scheduler] hands
    the id to the scheduler, leaves the Stimulator enabled -- and returns
    false. *)
Theorem create_scheduler_valid_handshake_returns_false :
  @create_scheduler bench 170 (double_of_Z 40)
    (bench_state (test_stim true false) (mkBench [] [Some 7%Z] [] []))
  = Ret false
      (@mkState bench (test_stim true false) (mkBench [] [] [] [])
         [mkEntry (Scheduler_create_scheduler 0 0 170 25 1) true;
          mkEntry (read_message 0 true) (ack_frame (Some 7%Z));
          mkEntry (Scheduler_set_id 0 7) tt]).
Proof. vm_compute. reflexivity. Qed.

Lemma bench_acks_carry_id : @acks_carry_id bench.
Proof.
  intros slot w. cbn. unfold next_ack.
  destruct (acks w) as [|[id|] rest]; cbn; intros H; discriminate.
Qed.

Lemma test_channels_boards_ok : boards_ok test_channels.
Proof. unfold boards_ok, test_channels. repeat constructor. Qed.




(** Scenario E: [disable] twice on a Stimulator that was never enabled. *)
Lemma disable_idempotent_witness :
  exists s1 s2,
    @disable bench (bench_state (test_stim false false) (mkBench [] [] [] []))
    = Ret tt s1 /\
    disable s1 = Ret tt s2 /\
    stim s2 = test_stim false false /\
    trace s2 = [not_enabled_notice; not_enabled_notice].
Proof.
  destruct (@disable_idempotent bench
              (bench_state (test_stim false false) (mkBench [] [] [] [])))
    as (s1 & s2 & E1 & _ & Hfirst & E2 & Hs2 & T2).
  - vm_compute. lia.
  - destruct (Hfirst eq_refl) as [Hs1 T1].
    exists s1, s2. split; [exact E1|]. split; [exact E2|].
    split; [rewrite Hs2, Hs1; reflexivity|].
    rewrite T2, T1. reflexivity.
Defined.

(** Scenario B: 40 Hz, a valid acknowledgement carrying id 7. *)
Lemma create_scheduler_tick_and_id_witness :
  exists b s' rounds,
    @create_scheduler bench 170 (double_of_Z 40)
      (bench_state (test_stim true false) (mkBench [] [Some 7%Z] [] []))
    = Ret b s' /\
    trace s' = handshake_entries (test_stim true false) 170 25 0 rounds.
Proof.
  destruct (@create_scheduler_tick_and_id bench
              (bench_state (test_stim true false) (mkBench [] [Some 7%Z] [] []))
              170%Z (double_of_Z 40) 25%Z)
    as (_ & _ & _ & _ & b & s' & rounds & E & _ & T & _).
  - vm_compute. lia.
  - reflexivity.
  - reflexivity.
  - vm_compute. reflexivity.
  - exact bench_acks_carry_id.
  - exists b, s', rounds. split; [exact E | exact T].
Defined.

(** [begin] before [enable]. *)
Lemma begin_requires_enabled_witness :
  exists s',
    @begin bench (bench_state (test_stim false false) (mkBench [] [] [] []))
    = Ret false s' /\
    stim s' = test_stim false false.
Proof.
  destruct (@begin_requires_enabled bench
              (bench_state (test_stim false false) (mkBench [] [] [] [])))
    as [Hdisabled _].
  - vm_compute. lia.
  - destruct (Hdisabled eq_refl) as (s' & E & Hs & _).
    exists s'. split; [exact E | exact Hs].
Defined.

(** Scenario C: four channels, the second one fails. *)
Lemma add_events_fails_fast_witness :
  exists s',
    @add_events bench test_channels 3
      (bench_state (test_stim true false) (mkBench [true; false] [] [] []))
    = Ret false s' /\
    trace s' = [added (test_stim true false) 3 true bicep;
                added (test_stim true false) 3 false tricep].
Proof.
  destruct (@add_events_fails_fast bench
              (bench_state (test_stim true false) (mkBench [true; false] [] [] []))
              test_channels 3%Z)
    as (b & s' & t & E & _).
  - reflexivity.
  - exact test_channels_boards_ok.
  - vm_compute in E. injection E as Hb Hs. subst b s'.
    eexists. split; reflexivity.
Defined.


(** Four channels and only two amplitudes. *)
Lemma set_amps_write_pws_need_enough_values_witness :
  @set_amps bench test_channels [10; 20]%Z
    (bench_state (test_stim true false) (mkBench [] [] [] []))
  = Undefined /\
  @write_pws bench test_channels [10; 20]%Z
    (bench_state (test_stim true false) (mkBench [] [] [] []))
  = Undefined.
Proof.
  destruct (@set_amps_write_pws_need_enough_values bench
              (bench_state (test_stim true false) (mkBench [] [] [] []))
              test_channels [10; 20]%Z test_channels_boards_ok)
    as [_ Hshort].
  apply Hshort. vm_compute. lia.
Defined.

(** * [VirtualStim::fmt_msg] *)

Lemma append_assoc (a b c : string) :
  ((a ++ b) ++ c = a ++ (b ++ c))%string.
Proof. induction a as [|x a IH]; cbn; [reflexivity | now rewrite IH]. Qed.

Lemma append_empty_r (a : string) : (a ++ "" = a)%string.
Proof. induction a as [|x a IH]; cbn; [reflexivity | now rewrite IH]. Qed.

Lemma length_append (a b : string) :
  String.length (a ++ b) = String.length a + String.length b.
Proof. induction a as [|x a IH]; cbn; [reflexivity | now rewrite IH]. Qed.

(** The loop returns what [rendered] describes, as long as the counter
    stays an [int]. *)
Lemma fmt_msg_loop_rendered (size : Z) (rest : list Byte.byte) :
  forall (i : Z) (unc int : string),
    (0 <= i)%Z -> (i + Z.of_nat (List.length rest) = size)%Z ->
    (size <= INT_MAX)%Z ->
    fmt_msg_loop size i rest unc int
    = Some ((unc ++ rendered sprintf_02X size i rest)%string,
            (int ++ rendered sprintf_04i size i rest)%string).
Proof.
  induction rest as [|b rest IH]; intros i unc int Hi Hsize Hmax.
  - cbn. now rewrite !append_empty_r.
  - cbn [fmt_msg_loop rendered]. cbn [List.length] in Hsize.
    replace (i =? INT_MAX)%Z with false by (symmetry; apply Z.eqb_neq; lia).
    rewrite IH by lia. now rewrite !append_assoc.
Qed.

Lemma fmt_msg_rendered (message : list Byte.byte) :
  (Z.of_nat (List.length message) <= INT_MAX)%Z ->
  fmt_msg message
  = Some [("|" ++ rendered sprintf_04i (Z.of_nat (List.length message)) 0 message)%string;
          ("|" ++ rendered sprintf_02X (Z.of_nat (List.length message)) 0 message)%string].
Proof.
  intros H. unfold fmt_msg. now rewrite fmt_msg_loop_rendered by lia.
Qed.

(** When the loop returns, the counter stayed an [int]. *)
Lemma fmt_msg_loop_defined (size : Z) (rest : list Byte.byte) :
  forall (i : Z) (unc int : string) r,
    (i <= INT_MAX)%Z ->
    fmt_msg_loop size i rest unc int = Some r ->
    (i + Z.of_nat (List.length rest) <= INT_MAX)%Z.
Proof.
  induction rest as [|b rest IH]; intros i unc int r Hi H.
  - cbn [List.length]. lia.
  - cbn [fmt_msg_loop] in H.
    destruct (i =? INT_MAX)%Z eqn:E; [discriminate|].
    apply Z.eqb_neq in E.
    assert (Hi' : (i + 1 <= INT_MAX)%Z) by lia.
    pose proof (IH _ _ _ _ Hi' H). cbn [List.length]. lia.
Qed.

Lemma fmt_msg_defined (message : list Byte.byte) r :
  fmt_msg message = Some r ->
  (Z.of_nat (List.length message) <= INT_MAX)%Z.
Proof.
  unfold fmt_msg. intros H.
  destruct (fmt_msg_loop _ 0 message "|" "|") as [p|] eqn:E; [|discriminate].
  assert (H0 : (0 <= INT_MAX)%Z) by (unfold INT_MAX; lia).
  pose proof (fmt_msg_loop_defined _ _ _ _ H0 E). lia.
Qed.

(** *** The layout of a line *)

Lemma separator_header (size : Z) : separator size 3 = " | "%string.
Proof. reflexivity. Qed.

Lemma separator_inner (size i : Z) :
  i <> 3%Z -> i <> (size - 1)%Z -> separator size i = ", "%string.
Proof.
  intros H3 Hl. unfold separator.
  apply Z.eqb_neq in H3, Hl. now rewrite H3, Hl.
Qed.

Lemma separator_last (size i : Z) :
  i <> 3%Z -> i = (size - 1)%Z -> separator size i = "|"%string.
Proof.
  intros H3 Hl. unfold separator.
  apply Z.eqb_neq in H3. apply Z.eqb_eq in Hl. now rewrite H3, Hl.
Qed.

(** Past the header every number but the last is followed by ", ", the last
    by the closing bar. *)
Lemma rendered_body (number : Byte.byte -> string) (size : Z)
    (rest : list Byte.byte) :
  forall i : Z,
    (4 <= i)%Z -> (i + Z.of_nat (List.length rest) = size)%Z -> rest <> [] ->
    rendered number size i rest
    = (joined (map number rest) ++ "|")%string.
Proof.
  induction rest as [|b rest IH]; intros i Hi Hsize Hne; [congruence|].
  cbn [List.length] in Hsize.
  destruct rest as [|b' rest].
  - cbn [rendered map joined]. cbn [List.length] in Hsize.
    rewrite separator_last by lia. now rewrite append_empty_r.
  - change (rendered number size i (b :: b' :: rest))
      with (number b ++ separator size i
              ++ rendered number size (i + 1) (b' :: rest))%string.
    cbn [List.length] in Hsize.
    rewrite separator_inner by lia.
    rewrite IH; [| lia | cbn [List.length]; lia | discriminate].
    change (joined (map number (b :: b' :: rest)))
      with (number b ++ ", " ++ joined (map number (b' :: rest)))%string.
    now rewrite !append_assoc.
Qed.

Lemma rendered_cons (number : Byte.byte -> string) (size i : Z)
    (b : Byte.byte) (rest : list Byte.byte) :
  rendered number size i (b :: rest)
  = (number b ++ separator size i ++ rendered number size (i + 1) rest)%string.
Proof. reflexivity. Qed.

Lemma joined_cons (x y : string) (l : list string) :
  joined (x :: y :: l) = (x ++ ", " ++ joined (y :: l))%string.
Proof. reflexivity. Qed.

Lemma rendered_line (number : Byte.byte -> string)
    (message : list Byte.byte) :
  ("|" ++ rendered number (Z.of_nat (List.length message)) 0 message)%string
  = monitor_line number message.
Proof.
  destruct message as [|a [|b [|c [|d [|e rest]]]]];
    try (cbn; rewrite ?append_empty_r;
         repeat (rewrite append_assoc; cbn [append]); reflexivity).
  unfold monitor_line.
  change (List.length (a :: b :: c :: d :: e :: rest))
    with (S (S (S (S (S (List.length rest)))))).
  cbn [firstn skipn].
  change (map number [a; b; c; d])
    with [number a; number b; number c; number d].
  rewrite !joined_cons. change (joined [number d]) with (number d).
  set (size := Z.of_nat (S (S (S (S (S (List.length rest))))))).
  assert (Hsize : size = (5 + Z.of_nat (List.length rest))%Z)
    by (unfold size; lia).
  rewrite 4 rendered_cons. change (0 + 1 + 1 + 1 + 1)%Z with 4%Z.
  change (0 + 1 + 1 + 1)%Z with 3%Z. change (0 + 1 + 1)%Z with 2%Z.
  change (0 + 1)%Z with 1%Z.
  rewrite (@separator_inner size 0), (@separator_inner size 1),
    (@separator_inner size 2), separator_header by lia.
  rewrite (@rendered_body number size (e :: rest) 4);
    [| lia | cbn [List.length]; lia | discriminate].
  repeat (rewrite append_assoc; cbn [append]). reflexivity.
Qed.

(** X13.  [fmt_msg] returns two lines, the decimal one first, both laid out
    alike: a bar, the first four numbers separated by ", ", then " | ", then
    the other numbers separated by ", ", then a closing bar.  A message of
    one to three bytes has no " | "; a message of exactly four bytes ends
    with " | " and gets no closing bar; the empty message gives a single
    bar. *)
Theorem fmt_msg_layout (message : list Byte.byte) :
  (Z.of_nat (List.length message) <= INT_MAX)%Z ->
  fmt_msg message
  = Some [monitor_line sprintf_04i message; monitor_line sprintf_02X message].
Proof.
  intros H. rewrite fmt_msg_rendered by exact H.
  now rewrite !rendered_line.
Qed.

(** *** The lengths of the lines *)

Lemma joined_length (number : Byte.byte -> string) (l : list Byte.byte) :
  (forall b, String.length (number b) = 4) ->
  l <> [] ->
  String.length (joined (map number l)) + 2 = 6 * List.length l.
Proof.
  intros H4. induction l as [|b l IH]; intros Hne; [congruence|].
  destruct l as [|b' l].
  - cbn [map joined List.length]. rewrite H4. reflexivity.
  - change (joined (map number (b :: b' :: l)))
      with (number b ++ ", " ++ joined (map number (b' :: l)))%string.
    rewrite !length_append, H4.
    assert (Hne' : b' :: l <> []) by discriminate.
    specialize (IH Hne'). cbn [List.length] in *.
    change (String.length ", ") with 2. lia.
Qed.

Lemma monitor_line_has_its_length (number : Byte.byte -> string)
    (message : list Byte.byte) :
  (forall b, String.length (number b) = 4) ->
  String.length (monitor_line number message) = monitor_line_length (List.length message).
Proof.
  intros H4.
  destruct message as [|a [|b [|c [|d [|e rest]]]]];
    try (unfold monitor_line; cbn [List.length monitor_line_length];
         rewrite !length_append;
         match goal with
         | |- context [joined (map number ?l)] =>
             pose proof (@joined_length number l H4 ltac:(discriminate)) as HJ
         end;
         cbn [List.length String.length] in *; lia).
  - reflexivity.
  - unfold monitor_line, monitor_line_length.
    change (List.length (a :: b :: c :: d :: e :: rest))
      with (S (S (S (S (S (List.length rest)))))).
    cbn [firstn skipn]. rewrite !length_append.
    pose proof (@joined_length number [a; b; c; d] H4 ltac:(discriminate)) as H1.
    pose proof (@joined_length number (e :: rest) H4 ltac:(discriminate)) as H2.
    cbn [List.length String.length] in *. lia.
Qed.

(** X14.  The two lines of one message have the same length, which depends
    on the number of bytes only: every byte takes four characters in either
    line.  The two monitor lines of a message therefore line up column by
    column. *)
Theorem fmt_msg_lines_align (message : list Byte.byte) :
  (Z.of_nat (List.length message) <= INT_MAX)%Z ->
  exists int_line hex_line,
    fmt_msg message = Some [int_line; hex_line] /\
    String.length int_line = monitor_line_length (List.length message) /\
    String.length hex_line = monitor_line_length (List.length message).
Proof.
  intros H. rewrite fmt_msg_rendered by exact H. rewrite !rendered_line.
  eexists _, _. split; [reflexivity|].
  split; apply monitor_line_has_its_length; intros b; reflexivity.
Qed.

(** *** Reading a line back *)

Lemma read_hex_number (b : Byte.byte) (t : string) :
  read_hex (sprintf_02X b ++ t) = b :: read_hex t.
Proof. destruct b; reflexivity. Qed.

Lemma read_dec_number (b : Byte.byte) (t : string) :
  read_dec (sprintf_04i b ++ t) = b :: read_dec t.
Proof. destruct b; reflexivity. Qed.

Lemma read_hex_separator (size i : Z) (t : string) :
  read_hex (separator size i ++ t) = read_hex t.
Proof.
  unfold separator.
  destruct (i =? 3)%Z; [reflexivity|].
  destruct (negb (i =? size - 1)%Z); reflexivity.
Qed.

Lemma read_dec_separator (size i : Z) (t : string) :
  read_dec (separator size i ++ t) = read_dec t.
Proof.
  unfold separator.
  destruct (i =? 3)%Z; [reflexivity|].
  destruct (negb (i =? size - 1)%Z); reflexivity.
Qed.

Lemma read_hex_rendered (size : Z) (rest : list Byte.byte) :
  forall i : Z, read_hex (rendered sprintf_02X size i rest) = rest.
Proof.
  induction rest as [|b rest IH]; intros i; [reflexivity|].
  cbn [rendered].
  now rewrite read_hex_number, read_hex_separator, IH.
Qed.

Lemma read_dec_rendered (size : Z) (rest : list Byte.byte) :
  forall i : Z, read_dec (rendered sprintf_04i size i rest) = rest.
Proof.
  induction rest as [|b rest IH]; intros i; [reflexivity|].
  cbn [rendered].
  now rewrite read_dec_number, read_dec_separator, IH.
Qed.

(** X15.  Either line alone tells the message: two different messages
    differ in their decimal lines and in their hexadecimal lines. *)
Theorem fmt_msg_lines_tell_the_message (m1 m2 : list Byte.byte)
    (int1 hex1 int2 hex2 : string) :
  m1 <> m2 ->
  fmt_msg m1 = Some [int1; hex1] ->
  fmt_msg m2 = Some [int2; hex2] ->
  int1 <> int2 /\ hex1 <> hex2.
Proof.
  intros Hne E1 E2.
  pose proof (fmt_msg_defined _ E1) as H1.
  pose proof (fmt_msg_defined _ E2) as H2.
  rewrite fmt_msg_rendered in E1, E2 by assumption.
  injection E1 as <- <-. injection E2 as <- <-.
  split; intros Heq; apply Hne.
  - apply (f_equal read_dec) in Heq. cbn [append] in Heq.
    change (read_dec (String "|" ?t)) with (read_dec t) in Heq.
    now rewrite !read_dec_rendered in Heq.
  - apply (f_equal read_hex) in Heq. cbn [append] in Heq.
    change (read_hex (String "|" ?t)) with (read_hex t) in Heq.
    now rewrite !read_hex_rendered in Heq.
Qed.

(** * Further runs on the bench *)

Lemma disabled_operations_only_log_witness :
  exists s',
    @update bench (bench_state (test_stim false false) (mkBench [] [] [] []))
    = Ret false s' /\
    stim s' = test_stim false false.
Proof.
  destruct (@disabled_operations_only_log bench
              (bench_state (test_stim false false) (mkBench [] [] [] []))
              bicep test_channels 3%Z 10%Z 170%Z (double_of_Z 40) 25%Z)
    as ((s' & E & Hs & _) & _).
  - reflexivity.
  - vm_compute. reflexivity.
  - exists s'. split; [exact E | exact Hs].
Defined.

Lemma halt_scheduler_asks_every_port_witness :
  exists s',
    @halt_scheduler bench
      (bench_state (set_m_num_ports 2 (test_stim false false))
         (mkBench [false; true] [] [] []))
    = Ret false s' /\
    trace s' = [mkEntry (Scheduler_halt_scheduler 0) false;
                mkEntry (Scheduler_halt_scheduler 1) true].
Proof.
  destruct (@halt_scheduler_asks_every_port bench
              (bench_state (set_m_num_ports 2 (test_stim false false))
                 (mkBench [false; true] [] [] [])))
    as (answers & s' & E & _).
  - vm_compute. lia.
  - vm_compute in E. injection E as Hb Hs. subst s'.
    eexists. split; reflexivity.
Defined.

Lemma board_number_selects_the_scheduler_witness :
  @set_amp bench (mkChannel "calf" 0 2 100 250) 10
    (bench_state (test_stim true false) (mkBench [] [] [] []))
  = Undefined.
Proof.
  destruct (@board_number_selects_the_scheduler bench
              (bench_state (test_stim true false) (mkBench [] [] [] []))
              (mkChannel "calf" 0 2 100 250) 10%Z 3%Z eq_refl)
    as [_ Hbad].
  apply Hbad. vm_compute. lia.
Defined.

Lemma create_scheduler_virtual_witness :
  exists b s',
    @create_scheduler bench 170 (double_of_Z 40)
      (bench_state (test_stim true true) (mkBench [false] [] [] []))
    = Ret b s' /\
    stim s' = test_stim true true /\
    trace s' = [mkEntry (Scheduler_create_scheduler 0 0 170 25 1) false].
Proof.
  destruct (@create_scheduler_virtual bench
              (bench_state (test_stim true true) (mkBench [false] [] [] []))
              170%Z (double_of_Z 40) 25%Z)
    as (answers & b & s' & E & Hs & _).
  - vm_compute. lia.
  - reflexivity.
  - reflexivity.
  - vm_compute. reflexivity.
  - assert (Ht : trace s'
                 = [mkEntry (Scheduler_create_scheduler 0 0 170 25 1) false]).
    { vm_compute in E. injection E as _ Hs'. subst s'. reflexivity. }
    exists b, s'. split; [exact E|]. split; [exact Hs | exact Ht].
Defined.

Lemma update_max_changes_first_match_witness :
  exists s1,
    @update_max_amp bench tricep 80
      (bench_state (test_stim true false) (mkBench [] [] [] []))
    = Ret tt s1 /\
    m_channels (stim s1)
    = [bicep; set_max_amplitude 80 tricep; forearm; wrist].
Proof.
  destruct (@update_max_changes_first_match bench
              (bench_state (test_stim true false) (mkBench [] [] [] []))
              tricep 80%Z) as [Hfound _].
  destruct (Hfound [bicep] tricep [forearm; wrist])
    as (s1 & s2 & E1 & _ & Hs1 & _).
  - reflexivity.
  - intros c [<- | []]. discriminate.
  - reflexivity.
  - exists s1. split; [exact E1|]. rewrite Hs1. reflexivity.
Defined.



Lemma enable_then_disable_closes_every_port_witness :
  exists s1 s2,
    @enable bench (bench_state (test_stim false false) (mkBench [] [] [] []))
    = Ret true s1 /\
    disable s1 = Ret tt s2 /\
    m_enabled (stim s2) = false.
Proof.
  assert (E : exists s1,
            @enable bench (bench_state (test_stim false false) (mkBench [] [] [] []))
            = Ret true s1).
  { eexists. vm_compute. reflexivity. }
  destruct E as (s1 & E).
  destruct (@enable_then_disable_closes_every_port bench
              (bench_state (test_stim false false) (mkBench [] [] [] [])) s1)
    as (t & s2 & _ & _ & E2 & He2 & _).
  - unfold ports_ok. vm_compute. lia.
  - exact test_channels_boards_ok.
  - exact E.
  - exists s1, s2. split; [exact E|]. split; [exact E2 | exact He2].
Defined.

(** One channel, numbered 1, and its event: the tick writes past the end of
    the one-entry snapshot vectors. *)
Lemma update_undefined_iff_snapshot_out_of_range_witness :
  @update bench
    (bench_state lone_tricep_stim (mkBench [] [] [] [mkEvent tricep 0 0]))
  = Undefined.
Proof.
  apply (@update_undefined_iff_snapshot_out_of_range bench
           (bench_state lone_tricep_stim (mkBench [] [] [] [mkEvent tricep 0 0]))).
  - vm_compute. lia.
  - reflexivity.
  - reflexivity.
Defined.


Lemma failed_update_latches_witness :
  exists s1 s2,
    @update bench
      (bench_state (test_stim true false) (mkBench [false] [] [] []))
    = Ret false s1 /\
    update s1 = Ret false s2 /\
    stim s2 = stim s1.
Proof.
  assert (E : exists s1,
            @update bench
              (bench_state (test_stim true false) (mkBench [false] [] [] []))
            = Ret false s1).
  { eexists. vm_compute. reflexivity. }
  destruct E as (s1 & E).
  destruct (@failed_update_latches bench
              (bench_state (test_stim true false) (mkBench [false] [] [] [])) s1)
    as (_ & (s2 & E2 & Hs2 & _) & _).
  - vm_compute. lia.
  - reflexivity.
  - exact E.
  - exists s1, s2. split; [exact E|]. split; [exact E2 | exact Hs2].
Defined.


Lemma fmt_msg_layout_witness :
  fmt_msg [Byte.x04; Byte.x80; Byte.x47; Byte.x01; Byte.xff]
  = Some ["|0004, 0128, 0071, 0001 | 0255|"%string;
          "|0x04, 0x80, 0x47, 0x01 | 0xFF|"%string] /\
  fmt_msg [Byte.x04; Byte.x80; Byte.x04; Byte.x00]
  = Some ["|0004, 0128, 0004, 0000 | "%string;
          "|0x04, 0x80, 0x04, 0x00 | "%string].
Proof.
  split.
  - rewrite (@fmt_msg_layout [Byte.x04; Byte.x80; Byte.x47; Byte.x01; Byte.xff]).
    + reflexivity.
    + unfold INT_MAX. cbn. lia.
  - rewrite (@fmt_msg_layout [Byte.x04; Byte.x80; Byte.x04; Byte.x00]).
    + reflexivity.
    + unfold INT_MAX. cbn. lia.
Defined.

Lemma fmt_msg_lines_align_witness :
  exists int_line hex_line,
    fmt_msg [Byte.x04; Byte.x80; Byte.x47; Byte.x01; Byte.xff]
    = Some [int_line; hex_line] /\
    String.length int_line = 31 /\ String.length hex_line = 31.
Proof.
  destruct (@fmt_msg_lines_align
              [Byte.x04; Byte.x80; Byte.x47; Byte.x01; Byte.xff])
    as (int_line & hex_line & E & Hi & Hh).
  - unfold INT_MAX. cbn. lia.
  - exists int_line, hex_line. split; [exact E|]. split; assumption.
Defined.

Lemma fmt_msg_lines_tell_the_message_witness :
  "|0004, 0128|"%string <> "|0004, 0128, 0071, 0000 | "%string /\
  "|0x04, 0x80|"%string <> "|0x04, 0x80, 0x47, 0x00 | "%string.
Proof.
  apply (@fmt_msg_lines_tell_the_message
           [Byte.x04; Byte.x80] [Byte.x04; Byte.x80; Byte.x47; Byte.x00]).
  - discriminate.
  - reflexivity.
  - reflexivity.
Defined.
